(** * FurNet frontend: friend linking (App.jsx) and health monitoring
      (Monitoring component)

    A shallow embedding of the two stateful flows of the React frontend:
    - [App.addFriend]: canonicalise the typed URL, fetch the peer's
      [/api/me], reject self-links, then POST to [/api/friends];
    - [Monitoring]: the polling effect ([useEffect] + [setInterval]),
      [checkHealth], [addInstance] and [removeInstance].

    JavaScript strings are sequences of UTF-16 code units, values decoded
    from JSON are a small inductive type, the network is an oracle, and
    the event loop is a deterministic step function over explicit events. *)

From Stdlib Require Import NArith List Ascii String DecimalString.
From Stdlib Require Import Floats.SpecFloat.
From stdpp Require Import gmap list.

Set Default Proof Using "Type".
Set Warnings "-register-all".
Local Open Scope N_scope.

(** ** JavaScript strings *)

Module JsString.

(** A string is its sequence of UTF-16 code units. *)
Abbreviation jsstring := (list N) (only parsing).

(** An ASCII literal of the source. *)
Fixpoint lit (s : string) : jsstring :=
  match s with
  | EmptyString => []
  | String a s' => N_of_ascii a :: lit s'
  end.
#[global] Arguments lit : simpl never.

(** WhiteSpace and LineTerminator code points, the ones [trim] removes. *)
Definition is_whitespace (c : N) : bool :=
  (c =? 0x09) || (c =? 0x0A) || (c =? 0x0B) || (c =? 0x0C) || (c =? 0x0D)
  || (c =? 0x20) || (c =? 0xA0) || (c =? 0x1680)
  || ((0x2000 <=? c) && (c <=? 0x200A))
  || (c =? 0x2028) || (c =? 0x2029) || (c =? 0x202F) || (c =? 0x205F)
  || (c =? 0x3000) || (c =? 0xFEFF).

Fixpoint trimStart (s : jsstring) : jsstring :=
  match s with
  | [] => []
  | c :: s' => if is_whitespace c then trimStart s' else s
  end.

Definition trimEnd (s : jsstring) : jsstring := rev (trimStart (rev s)).

(** [s.trim()] *)
Definition trim (s : jsstring) : jsstring := trimEnd (trimStart s).

(** [s.startsWith(p)] *)
Fixpoint startsWith (s p : jsstring) {struct p} : bool :=
  match p, s with
  | [], _ => true
  | _ :: _, [] => false
  | a :: p', b :: s' => (a =? b) && startsWith s' p'
  end.

(** [s.replace(/\/$/, '')]: the pattern has no flags, so [$] only matches
    at the end of the input and at most one slash is removed. *)
Fixpoint replace_trailing_slash (s : jsstring) : jsstring :=
  match s with
  | [] => []
  | c :: s' =>
      match s' with
      | [] => if c =? 0x2F then [] else [c]
      | _ :: _ => c :: replace_trailing_slash s'
      end
  end.

(** Decimal rendering of a non-negative integer (template literals and
    [String(n)] on integers). *)
Definition of_N (n : N) : jsstring := lit (NilZero.string_of_uint (N.to_uint n)).

(** [!s] is true exactly for the empty string. *)
Definition is_empty (s : jsstring) : bool :=
  match s with [] => true | _ :: _ => false end.

End JsString.
Import JsString.

(** ** Values decoded from JSON *)

Module JsValue.

(** Values the code handles: what [response.json()] can produce, plus
    [undefined] (the result of reading a missing property). Numbers are
    IEEE doubles. The [fields] of an object are its own properties. *)
Inductive JsVal : Type :=
| VUndefined
| VNull
| VBool (b : bool)
| VNum (x : spec_float)
| VStr (s : jsstring)
| VArr (elems : list JsVal)
| VObj (fields : list (jsstring * JsVal)).

(** Exceptions that reach the [catch] blocks. Built-in errors carry an
    engine-defined message, so they are kept symbolic; [Error m] is
    [new Error(m)]. *)
Inductive Exn : Type :=
| FetchFailed
| JsonSyntaxError
| TypeError
| Error (message : jsstring).

Fixpoint assoc (k : jsstring) (fields : list (jsstring * JsVal)) : JsVal :=
  match fields with
  | [] => VUndefined
  | (k', v) :: rest => if decide (k = k') then v else assoc k rest
  end.

(** [v.k] for the property names the code reads ([id], [name], [detail],
    [instance_url]); none of them exists on a built-in prototype, so on
    anything but an object with that own property the result is
    [undefined], and on [null] and [undefined] the access throws. *)
Definition get_prop (v : JsVal) (k : jsstring) : Exn + JsVal :=
  match v with
  | VUndefined | VNull => inl TypeError
  | VObj fields => inr (assoc k fields)
  | _ => inr VUndefined
  end.

(** [a === b] where [a] and [b] come from two different decoded bodies:
    primitives compare by value (IEEE equality on numbers), arrays and
    objects by reference, and two decodings never share a reference. *)
Definition strict_eq (a b : JsVal) : bool :=
  match a, b with
  | VUndefined, VUndefined => true
  | VNull, VNull => true
  | VBool x, VBool y => Bool.eqb x y
  | VNum x, VNum y => SFeqb x y
  | VStr x, VStr y => bool_decide (x = y)
  | _, _ => false
  end.

(** ToBoolean *)
Definition truthy (v : JsVal) : bool :=
  match v with
  | VUndefined | VNull => false
  | VBool b => b
  | VNum x =>
      match x with
      | S754_zero _ | S754_nan => false
      | _ => true
      end
  | VStr s => negb (is_empty s)
  | VArr _ | VObj _ => true
  end.

(** Built-ins the embedding does not open up: Number::toString and
    [new URL(s).hostname] ([None] when the constructor throws). *)
Class Platform : Type := {
  number_to_string : spec_float -> jsstring;
  hostname : jsstring -> option jsstring;
}.

Section ToString.

Context {platform : Platform}.

(** ToString, as used by template literals, [new Error(v)] and
    computed property keys. *)
Fixpoint to_string (v : JsVal) : jsstring :=
  match v with
  | VUndefined => lit "undefined"
  | VNull => lit "null"
  | VBool true => lit "true"
  | VBool false => lit "false"
  | VNum x => number_to_string x
  | VStr s => s
  | VArr elems =>
      (fix join (l : list JsVal) : jsstring :=
         match l with
         | [] => []
         | x :: rest =>
             let sx := match x with
                       | VUndefined | VNull => []
                       | _ => to_string x
                       end in
             match rest with
             | [] => sx
             | _ :: _ => sx ++ lit "," ++ join rest
             end
         end) elems
  | VObj _ => lit "[object Object]"
  end.

End ToString.

End JsValue.
Import JsValue.

(** ** The network, as the frontend sees it *)

Module Net.

(** Body of [POST /api/friends]. [JSON.stringify] leaves out a field
    whose value is [undefined]. *)
Record FriendCandidate : Type := {
  unique_id : JsVal;
  dns_name : jsstring;
  name : JsVal;
}.

Inductive Request : Type :=
| GET (url : jsstring)
| POST_friends (body : FriendCandidate)
| POST_health_check (instance_urls : list jsstring).

(** What [await fetch(..)] followed by [await response.json()] can give:
    the promise rejects, or a response arrives with a status and a body
    that decodes as JSON ([Some]) or does not ([None]). *)
Inductive FetchOutcome : Type :=
| Rejects
| Responds (status : N) (body : option JsVal).

(** [response.ok] *)
Definition ok (status : N) : bool := (200 <=? status) && (status <=? 299).

Definition World : Type := Request -> FetchOutcome.

End Net.
Import Net.

(** ** App.jsx: the add-friend flow *)

Module App.

Record AppState : Type := {
  animal : JsVal;
  friends : list JsVal;
  friendUrl : jsstring;
  addingFriend : bool;
  friendError : option Exn;
  friendSuccess : option jsstring;
}.

Inductive Effect : Type :=
| Fetch (r : Request)
| SetTimeout (ms : N).

(** An [async] body: it appends to the log of effects performed so far
    and either throws or returns. *)
Definition Async (A : Type) : Type := list Effect -> list Effect * (Exn + A).

Definition ret {A} (a : A) : Async A := fun log => (log, inr a).
Definition throw {A} (e : Exn) : Async A := fun log => (log, inl e).
Definition bind {A B} (c : Async A) (k : A -> Async B) : Async B :=
  fun log =>
    match c log with
    | (log', inl e) => (log', inl e)
    | (log', inr a) => k a log'
    end.
Definition perform (e : Effect) : Async unit := fun log => (log ++ [e], inr tt).
Definition lift {A} (r : Exn + A) : Async A :=
  match r with inl e => throw e | inr a => ret a end.

#[global] Instance Async_ret : MRet Async := @ret.
#[global] Instance Async_bind : MBind Async := fun A B k c => bind c k.

(** Lines 59-65: the canonical base URL computed from the typed text. *)
Definition friendInstanceUrl (friendUrl : jsstring) : jsstring :=
  let u := trim friendUrl in
  let u := if negb (startsWith u (lit "http://")) && negb (startsWith u (lit "https://"))
           then lit "https://" ++ u else u in
  replace_trailing_slash u.

(** Line 67 *)
Definition friendMeUrl (friendUrl : jsstring) : jsstring :=
  friendInstanceUrl friendUrl ++ lit "/api/me".

(** The state after [catch] and [finally]: the handler began with
    [setFriendError(null)] and [setFriendSuccess(null)], [catch] stores
    the error and [finally] clears [addingFriend]. *)
Definition failed (st : AppState) (e : Exn) : AppState :=
  {| animal := animal st; friends := friends st; friendUrl := friendUrl st;
     addingFriend := false; friendError := Some e; friendSuccess := None |}.

Section AddFriend.

Context {platform : Platform}.
Variable world : World.

(** [await fetch(..)]: the request is sent, then the promise settles. *)
Definition fetch (r : Request) : Async (N * option JsVal) :=
  perform (Fetch r) ;;
  match world r with
  | Rejects => throw FetchFailed
  | Responds status body => ret (status, body)
  end.

(** [await response.json()] *)
Definition json (response : N * option JsVal) : Async JsVal :=
  match snd response with
  | None => throw JsonSyntaxError
  | Some v => ret v
  end.

(** "Step 1", lines 58-79: fetch the peer's [/api/me], decode it and
    refuse the caller's own profile. It returns [friendData]. *)
Definition fetch_profile (st : AppState) : Async JsVal :=
  let url := friendInstanceUrl (friendUrl st) in
  let meUrl := url ++ lit "/api/me" in
  friendResponse ← fetch (GET meUrl) ;
  (if negb (ok (fst friendResponse))
   then throw (Error (lit "Failed to fetch friend's profile from " ++ meUrl
                        ++ lit ". Status: " ++ of_N (fst friendResponse)))
   else ret tt) ;;
  friendData ← json friendResponse ;
  friend_id ← lift (get_prop friendData (lit "id")) ;
  own_id ← lift (get_prop (animal st) (lit "id")) ;
  (if strict_eq friend_id own_id
   then throw (Error (lit "You can't add yourself as a friend!"))
   else ret tt) ;;
  ret friendData.

(** "Step 2", lines 81-99: post the candidate to [/api/friends]. It
    returns the record the backend answered with. *)
Definition post_friend (st : AppState) (friendData : JsVal) : Async JsVal :=
  let url := friendInstanceUrl (friendUrl st) in
  friend_id ← lift (get_prop friendData (lit "id")) ;
  host ← lift (match hostname url with None => inl TypeError | Some h => inr h end) ;
  friend_name ← lift (get_prop friendData (lit "name")) ;
  addFriendResponse ←
    fetch (POST_friends {| unique_id := friend_id; dns_name := host; name := friend_name |}) ;
  (if negb (ok (fst addFriendResponse))
   then
     errorData ← json addFriendResponse ;
     detail ← lift (get_prop errorData (lit "detail")) ;
     throw (Error (to_string
                     (if truthy detail then detail
                      else VStr (lit "Failed to add friend to our backend"))))
   else ret tt) ;;
  json addFriendResponse.

(** The [try] block of [addFriend], lines 57-107. It returns the peer's
    name and the new record; the state setters of "Step 3" are applied
    in [addFriend]. *)
Definition addFriend_try (st : AppState) : Async (JsVal * JsVal) :=
  friendData ← fetch_profile st ;
  newFriend ← post_friend st friendData ;
  friend_name ← lift (get_prop friendData (lit "name")) ;
  perform (SetTimeout 3000) ;;
  ret (friend_name, newFriend).

(** [addFriend]: the state once the handler has run to completion
    ([catch] stores the error, [finally] clears [addingFriend]) and the
    effects it performed, in order. *)
Definition addFriend (st : AppState) : AppState * list Effect :=
  match addFriend_try st [] with
  | (log, inr (friend_name, newFriend)) =>
      ({| animal := animal st;
          friends := friends st ++ [newFriend];
          friendUrl := [];
          addingFriend := false;
          friendError := None;
          friendSuccess :=
            Some (lit "Successfully added " ++ to_string friend_name
                    ++ lit " as a friend!") |}, log)
  | (log, inl e) => (failed st e, log)
  end.

End AddFriend.

(** [r] is [u] without its last character when that is a slash, and [u]
    itself when it is not. *)
Definition strips_one_trailing_slash (u r : jsstring) : Prop :=
  (∃ v, u = v ++ lit "/" ∧ r = v) ∨ ((∀ v, u ≠ v ++ lit "/") ∧ r = u).

(** The add request was sent. *)
Definition is_add_request (e : Effect) : bool :=
  match e with
  | Fetch (POST_friends _) => true
  | _ => false
  end.

(** The profile fetch did not deliver a decoded profile. *)
Definition fetch_fails (o : FetchOutcome) : bool :=
  match o with
  | Rejects => true
  | Responds status body => negb (ok status) || negb (bool_decide (is_Some body))
  end.

End App.

(** ** The Monitoring component *)

Module Monitoring.

Definition defaultInstances : list jsstring :=
  [ lit "https://viscon.monomorphic.party";
    lit "https://dj-viscon-workshop-0.vsos.ethz.ch";
    lit "https://dj-viscon-workshop-1.vsos.ethz.ch";
    lit "https://dj-viscon-workshop-2.vsos.ethz.ch";
    lit "https://dj-viscon-workshop-3.vsos.ethz.ch";
    lit "https://dj-viscon-workshop-4.vsos.ethz.ch";
    lit "https://dj-viscon-workshop-5.vsos.ethz.ch";
    lit "https://dj-viscon-workshop-6.vsos.ethz.ch";
    lit "https://dj-viscon-workshop-7.vsos.ethz.ch";
    lit "https://dj-viscon-workshop-8.vsos.ethz.ch";
    lit "https://dj-viscon-workshop-9.vsos.ethz.ch";
    lit "https://dj-viscon-workshop-10.vsos.ethz.ch";
    lit "https://dj-viscon-workshop-11.vsos.ethz.ch";
    lit "https://dj-viscon-workshop-12.vsos.ethz.ch";
    lit "https://dj-viscon-workshop-13.vsos.ethz.ch";
    lit "https://dj-viscon-workshop-14.vsos.ethz.ch" ].

(** An interval created by [setInterval(() => checkHealth(), period)].
    The callback is the [checkHealth] of the render whose effect created
    it, so it reads that render's [instances]. *)
Record Interval : Type := {
  interval_id : nat;
  period_ms : N;
  closure_instances : list jsstring;
}.

(** A health-check request that has been sent and has not settled. *)
Record Cycle : Type := {
  cycle_id : nat;
  instance_urls : list jsstring;
}.

(** The five [useState] cells, and what the runtime holds for the
    component: the identity of the [instances] array (the effect's
    dependency is compared by identity), the live intervals, the
    interval the pending cleanup function clears, and the requests in
    flight. [healthStatuses] holds the own properties of the status
    object. *)
Record Session : Type := {
  instances : list jsstring;
  instanceInput : jsstring;
  healthStatuses : gmap jsstring JsVal;
  isChecking : bool;
  lastChecked : option N;
  instances_ref : nat;
  mounted : bool;
  intervals : list Interval;
  cleanup : option nat;
  in_flight : list Cycle;
  next_interval : nat;
  next_cycle : nat;
  alerts : nat;
}.

Definition setInstances (v : list jsstring) (s : Session) : Session :=
  {| instances := v; instanceInput := instanceInput s;
     healthStatuses := healthStatuses s; isChecking := isChecking s;
     lastChecked := lastChecked s; instances_ref := S (instances_ref s);
     mounted := mounted s; intervals := intervals s; cleanup := cleanup s;
     in_flight := in_flight s; next_interval := next_interval s;
     next_cycle := next_cycle s; alerts := alerts s |}.

Definition setInstanceInput (v : jsstring) (s : Session) : Session :=
  {| instances := instances s; instanceInput := v;
     healthStatuses := healthStatuses s; isChecking := isChecking s;
     lastChecked := lastChecked s; instances_ref := instances_ref s;
     mounted := mounted s; intervals := intervals s; cleanup := cleanup s;
     in_flight := in_flight s; next_interval := next_interval s;
     next_cycle := next_cycle s; alerts := alerts s |}.

Definition setHealthStatuses (v : gmap jsstring JsVal) (s : Session) : Session :=
  {| instances := instances s; instanceInput := instanceInput s;
     healthStatuses := v; isChecking := isChecking s;
     lastChecked := lastChecked s; instances_ref := instances_ref s;
     mounted := mounted s; intervals := intervals s; cleanup := cleanup s;
     in_flight := in_flight s; next_interval := next_interval s;
     next_cycle := next_cycle s; alerts := alerts s |}.

Definition setIsChecking (v : bool) (s : Session) : Session :=
  {| instances := instances s; instanceInput := instanceInput s;
     healthStatuses := healthStatuses s; isChecking := v;
     lastChecked := lastChecked s; instances_ref := instances_ref s;
     mounted := mounted s; intervals := intervals s; cleanup := cleanup s;
     in_flight := in_flight s; next_interval := next_interval s;
     next_cycle := next_cycle s; alerts := alerts s |}.

Definition setLastChecked (v : option N) (s : Session) : Session :=
  {| instances := instances s; instanceInput := instanceInput s;
     healthStatuses := healthStatuses s; isChecking := isChecking s;
     lastChecked := v; instances_ref := instances_ref s;
     mounted := mounted s; intervals := intervals s; cleanup := cleanup s;
     in_flight := in_flight s; next_interval := next_interval s;
     next_cycle := next_cycle s; alerts := alerts s |}.

(** Runtime bookkeeping: everything but the five state cells. *)
Definition with_runtime (m : bool) (ivs : list Interval) (c : option nat)
    (fl : list Cycle) (ni nc al : nat) (s : Session) : Session :=
  {| instances := instances s; instanceInput := instanceInput s;
     healthStatuses := healthStatuses s; isChecking := isChecking s;
     lastChecked := lastChecked s; instances_ref := instances_ref s;
     mounted := m; intervals := ivs; cleanup := c;
     in_flight := fl; next_interval := ni; next_cycle := nc; alerts := al |}.

(** [fetch('/api/health-check', {method: 'POST', body: {instance_urls}})]
    is sent; the promise is pending. *)
Definition send_health_check (urls : list jsstring) (s : Session) : Session :=
  with_runtime (mounted s) (intervals s) (cleanup s)
    (in_flight s ++ [{| cycle_id := next_cycle s; instance_urls := urls |}])
    (next_interval s) (S (next_cycle s)) (alerts s) s.

Definition setInterval (period : N) (captured : list jsstring) (s : Session) : Session :=
  with_runtime (mounted s)
    (intervals s ++ [{| interval_id := next_interval s; period_ms := period;
                        closure_instances := captured |}])
    (Some (next_interval s))
    (in_flight s) (S (next_interval s)) (next_cycle s) (alerts s) s.

Definition clearInterval (id : nat) (s : Session) : Session :=
  with_runtime (mounted s)
    (filter (fun iv => interval_id iv ≠ id) (intervals s))
    (cleanup s) (in_flight s) (next_interval s) (next_cycle s) (alerts s) s.

Definition alert (s : Session) : Session :=
  with_runtime (mounted s) (intervals s) (cleanup s) (in_flight s)
    (next_interval s) (next_cycle s) (S (alerts s)) s.

(** [checkHealth] up to its first [await] (lines 158-172), run with the
    [instances] its closure captured. *)
Definition checkHealth (captured : list jsstring) (s : Session) : Session :=
  match captured with
  | [] => s
  | _ :: _ => send_health_check captured (setIsChecking true s)
  end.

Section Settle.

Context {platform : Platform}.

(** [statusMap[key] = status] on a plain object: the key is converted
    to a string, and assigning to [__proto__] creates no own property. *)
Definition assign (key status : JsVal) (statusMap : gmap jsstring JsVal)
    : gmap jsstring JsVal :=
  if decide (to_string key = lit "__proto__") then statusMap
  else <[to_string key := status]> statusMap.

(** Lines 181-185: the array is turned into an object keyed by
    [instance_url]. [forEach] exists only on arrays. *)
Definition build_statusMap (data : JsVal) : Exn + gmap jsstring JsVal :=
  match data with
  | VArr elems =>
      fold_left
        (fun acc status =>
           match acc with
           | inl e => inl e
           | inr statusMap =>
               match get_prop status (lit "instance_url") with
               | inl e => inl e
               | inr key => inr (assign key status statusMap)
               end
           end)
        elems (inr ∅)
  | _ => inl TypeError
  end.

(** [checkHealth] from the point where the request settles (lines
    174-193). [now] is the value of [new Date()]. *)
Definition checkHealth_settled (o : FetchOutcome) (now : N) (s : Session) : Session :=
  match o with
  | Rejects => setIsChecking false s
  | Responds status body =>
      if negb (ok status) then setIsChecking false s
      else
        match body with
        | None => setIsChecking false s
        | Some data =>
            match build_statusMap data with
            | inl _ => setIsChecking false s
            | inr statusMap =>
                setIsChecking false
                  (setLastChecked (Some now) (setHealthStatuses statusMap s))
            end
        end
  end.

End Settle.

(** [addInstance], lines 196-210. *)
Definition addInstance (s : Session) : Session :=
  let trimmedUrl := trim (instanceInput s) in
  if is_empty trimmedUrl then s
  else if bool_decide (trimmedUrl ∈ instances s) then alert s
  else setInstanceInput [] (setInstances (instances s ++ [trimmedUrl]) s).

(** [removeInstance], lines 212-218. *)
Definition removeInstance (url : jsstring) (s : Session) : Session :=
  setHealthStatuses (delete url (healthStatuses s))
    (setInstances (filter (fun instance => instance ≠ url) (instances s)) s).

(** The cleanup function returned by the previous run of the effect. *)
Definition run_cleanup (s : Session) : Session :=
  match cleanup s with
  | None => s
  | Some id =>
      let s' := clearInterval id s in
      with_runtime (mounted s') (intervals s') None (in_flight s')
        (next_interval s') (next_cycle s') (alerts s') s'
  end.

(** The body of the effect, lines 143-156. With an empty list it returns
    at once and hands React no cleanup function ([cleanup] stays [None],
    as [run_cleanup] left it). *)
Definition effect_body (s : Session) : Session :=
  match instances s with
  | [] => s
  | _ :: _ => setInterval 5000 (instances s) (checkHealth (instances s) s)
  end.

(** A render is committed after a handler ran on [before]: the effect
    runs again, after its cleanup, exactly when its dependency
    [instances] is a new array. *)
Definition commit (before after : Session) : Session :=
  if decide (instances_ref before = instances_ref after) then after
  else effect_body (run_cleanup after).

Definition unmount (s : Session) : Session :=
  let s' := run_cleanup s in
  with_runtime false (intervals s') (cleanup s') (in_flight s')
    (next_interval s') (next_cycle s') (alerts s') s'.

Definition settle_cycle (id : nat) (s : Session) : Session :=
  with_runtime (mounted s) (intervals s) (cleanup s)
    (filter (fun c => cycle_id c ≠ id) (in_flight s))
    (next_interval s) (next_cycle s) (alerts s) s.

(** What can happen to the component: the input's [onChange], the
    form's submit ([addInstance]), a click on a remove button, an
    interval firing, a health-check request settling (the response and
    its [json()] taken together, since nothing reads the state in
    between; [now] is the clock at that moment) and the unmount. *)
Inductive Event : Type :=
| Change (value : jsstring)
| Submit
| Remove (url : jsstring)
| Tick (id : nat)
| Settled (id : nat) (o : FetchOutcome) (now : N)
| Unmount.

Definition has_interval (id : nat) (s : Session) : option Interval :=
  find (fun iv => bool_decide (interval_id iv = id)) (intervals s).

Definition has_cycle (id : nat) (s : Session) : option Cycle :=
  find (fun c => bool_decide (cycle_id c = id)) (in_flight s).

Section Step.

Context {platform : Platform}.

(** The callback an event runs. State setters of an unmounted
    component do nothing, and an unmounted component has no form. *)
Definition handle (ev : Event) (s : Session) : Session :=
  match ev with
  | Change value => if mounted s then setInstanceInput value s else s
  | Submit => if mounted s then addInstance s else s
  | Remove url => if mounted s then removeInstance url s else s
  | Tick id =>
      match has_interval id s with
      | Some iv => checkHealth (closure_instances iv) s
      | None => s
      end
  | Settled id o now =>
      match has_cycle id s with
      | Some _ =>
          let s' := settle_cycle id s in
          if mounted s then checkHealth_settled o now s' else s'
      | None => s
      end
  | Unmount => if mounted s then unmount s else s
  end.

(** One turn of the event loop: the callback, then the render it
    caused. *)
Definition step (ev : Event) (s : Session) : Session :=
  commit s (handle ev s).

(** The first render. *)
Definition first_render : Session :=
  {| instances := defaultInstances; instanceInput := [];
     healthStatuses := ∅; isChecking := false; lastChecked := None;
     instances_ref := 0%nat; mounted := true; intervals := [];
     cleanup := None; in_flight := []; next_interval := 0%nat;
     next_cycle := 0%nat; alerts := 0%nat |}.

(** The component once mounted: the effect has run for the first time. *)
Definition mount : Session := effect_body first_render.

Definition run (evs : list Event) : Session :=
  fold_left (fun s ev => step ev s) evs mount.

End Step.

(** At most one interval, and the cleanup knows it. *)
Definition one_interval (s : Session) : Prop :=
  (intervals s = [] ∧ cleanup s = None)
  ∨ ∃ iv, intervals s = [iv] ∧ cleanup s = Some (interval_id iv).

(** What the effect and its cleanup maintain: a mounted component with a
    non-empty list has exactly one interval, of 5000 ms, whose callback
    reads the current [instances], and the pending cleanup clears it;
    otherwise there is no interval at all. *)
Definition effect_invariant (s : Session) : Prop :=
  if mounted s then
    match instances s with
    | [] => intervals s = [] ∧ cleanup s = None
    | _ :: _ =>
        ∃ id, intervals s = [{| interval_id := id; period_ms := 5000;
                                closure_instances := instances s |}]
              ∧ cleanup s = Some id
    end
  else intervals s = [] ∧ cleanup s = None.

(** The cycle as a whole failed: the request was rejected, the status was
    not a success, the body did not decode, or [forEach] threw. *)
Definition cycle_fails {platform : Platform} (o : FetchOutcome) : bool :=
  match o with
  | Rejects => true
  | Responds status body =>
      negb (ok status) ||
      match body with
      | None => true
      | Some data =>
          match build_statusMap data with inl _ => true | inr _ => false end
      end
  end.

End Monitoring.

(** ** A stand-in platform for the worked examples *)

Module Reference.

Definition is_delimiter (c : N) : bool :=
  (c =? 0x2F) || (c =? 0x3F) || (c =? 0x23).

Fixpoint take_until (stop : N -> bool) (s : jsstring) : jsstring :=
  match s with
  | [] => []
  | c :: s' => if stop c then [] else c :: take_until stop s'
  end.

(** What follows the last [@], the whole string when there is none. *)
Fixpoint after_userinfo (s : jsstring) : jsstring :=
  match s with
  | [] => []
  | c :: s' =>
      if existsb (N.eqb 0x40) s' then after_userinfo s'
      else if c =? 0x40 then s' else s
  end.

Definition lower (c : N) : N :=
  if (0x41 <=? c) && (c <=? 0x5A) then c + 0x20 else c.

(** Host of an [http(s)://[user@]host[:port][/path][?query][#fragment]]
    URL with an ASCII host name. *)
Definition simple_hostname (url : jsstring) : option jsstring :=
  let rest :=
    if startsWith url (lit "http://") then Some (drop 7 url)
    else if startsWith url (lit "https://") then Some (drop 8 url)
    else None in
  match rest with
  | None => None
  | Some r =>
      let authority := after_userinfo (take_until is_delimiter r) in
      let host := take_until (N.eqb 0x3A) authority in
      if is_empty host then None else Some (map lower host)
  end.

(** Integers print in decimal; the examples use no other number. *)
Definition simple_number_to_string (x : spec_float) : jsstring :=
  match x with
  | S754_zero _ => lit "0"
  | S754_infinity false => lit "Infinity"
  | S754_infinity true => lit "-Infinity"
  | S754_nan => lit "NaN"
  | S754_finite sign m e =>
      (if sign then lit "-" else []) ++
      match e with
      | Z0 => of_N (Npos m)
      | Zpos k => of_N (N.shiftl (Npos m) (Npos k))
      | Zneg _ => []
      end
  end.

Definition platform : Platform :=
  {| number_to_string := simple_number_to_string;
     hostname := simple_hostname |}.

End Reference.

(** ** Worked scenarios *)

Module Scenario.

Import App.

Definition profile (id name : string) : JsVal :=
  VObj [(lit "id", VStr (lit id)); (lit "name", VStr (lit name))].

Definition me : JsVal := profile "self-123" "Momo".
Definition peer : JsVal := profile "peer-456" "Kiki".

(** The home page with a URL typed into the form. *)
Definition typed (url : string) : AppState :=
  {| animal := me; friends := []; friendUrl := lit url;
     addingFriend := false; friendError := None; friendSuccess := None |}.

(** The peer answers 503. *)
Definition unavailable : World :=
  fun r => match r with GET _ => Responds 503 None | _ => Rejects end.

(** The address is the caller's own instance. *)
Definition loopback : World :=
  fun r => match r with GET _ => Responds 200 (Some me) | _ => Rejects end.

(** A healthy peer and a backend that accepts the candidate. *)
Definition healthy : World :=
  fun r =>
    match r with
    | GET _ => Responds 200 (Some peer)
    | POST_friends b =>
        Responds 200
          (Some (VObj [(lit "unique_id", unique_id b);
                       (lit "dns_name", VStr (dns_name b));
                       (lit "name", name b)]))
    | POST_health_check _ => Rejects
    end.

(** A status record as [/api/health-check] returns it. *)
Definition status (url : string) (alive : bool) : JsVal :=
  VObj [(lit "instance_url", VStr (lit url)); (lit "is_alive", VBool alive)].

(** The first cycle came back with two statuses. *)
Definition first_answer : Monitoring.Event :=
  Monitoring.Settled 0
    (Responds 200
       (Some (VArr [status "https://viscon.monomorphic.party" true;
                    status "https://dj-viscon-workshop-0.vsos.ethz.ch" false])))
    1700000000000.

(** Every URL of the default list is removed, one click after the other. *)
Definition remove_all : list Monitoring.Event :=
  map Monitoring.Remove Monitoring.defaultInstances.

End Scenario.

(** ** App.jsx: loading the caller's own profile *)

Module Loading.

Import App.

(** The page: the cells [addFriend] works on, and the two cells of
    [fetchAnimal]. *)
Record Page : Type := {
  app : AppState;
  loading : bool;
  error : option Exn;
}.

Definition setAnimal (data : JsVal) (st : AppState) : AppState :=
  {| animal := data; friends := friends st; friendUrl := friendUrl st;
     addingFriend := addingFriend st; friendError := friendError st;
     friendSuccess := friendSuccess st |}.

Section FetchAnimal.

Variable world : World.

(** The [try] block of [fetchAnimal], lines 23-29. *)
Definition fetchAnimal_try : Async JsVal :=
  response ← fetch world (GET (lit "/api/me")) ;
  (if negb (ok (fst response))
   then throw (Error (lit "Failed to fetch animal profile"))
   else ret tt) ;;
  json response.

(** [fetchAnimal], lines 22-35, run to completion. *)
Definition fetchAnimal (p : Page) : Page * list Effect :=
  match fetchAnimal_try [] with
  | (log, inr data) =>
      ({| app := setAnimal data (app p); loading := false; error := None |}, log)
  | (log, inl e) =>
      ({| app := app p; loading := false; error := Some e |}, log)
  end.

End FetchAnimal.

End Loading.

(** ** Monitoring: what the instance cards show *)

Module Display.

(** [s.replace(pat, '')] with a string pattern: the first occurrence of
    [pat], wherever it is, is taken out. *)
Fixpoint replace_first (s pat : jsstring) : jsstring :=
  if startsWith s pat then drop (length pat) s
  else match s with
       | [] => []
       | c :: s' => c :: replace_first s' pat
       end.

(** Line 319: the text shown for an instance. *)
Definition hostname_shown (instance : jsstring) : jsstring :=
  replace_first (replace_first instance (lit "https://")) (lit "http://").

(** [pat] occurs in [s]. *)
Definition occurs (pat s : jsstring) : Prop := ∃ a b, s = a ++ pat ++ b.

End Display.

(** ** Vocabulary for the status map *)

Module StatusKey.


End StatusKey.

(** ** Further scenarios *)

Module Cases.

Import App.


(** The caller's own backend and its public address give the same
    profile. *)
Definition own_instance : World :=
  fun r => match r with GET _ => Responds 200 (Some Scenario.me) | _ => Rejects end.

(** The page before the profile has loaded. *)
Definition blank_page (url : string) : Loading.Page :=
  {| Loading.app :=
       {| animal := VNull; friends := []; friendUrl := lit url;
          addingFriend := false; friendError := None; friendSuccess := None |};
     Loading.loading := true; Loading.error := None |}.

(** A second answer that no longer lists the first URL. *)
Definition second_answer (id : nat) : Monitoring.Event :=
  Monitoring.Settled id
    (Responds 200
       (Some (VArr [Scenario.status "https://dj-viscon-workshop-0.vsos.ethz.ch" true])))
    1700000005000.

End Cases.

(** * Properties *)

(** ** Strings *)

Lemma startsWith_prefix (s p : jsstring) :
  startsWith s p = true <-> p `prefix_of` s.
Proof.
  revert s. induction p as [|a p IH]; intros s; simpl.
  - split; [intros _; apply prefix_nil | done].
  - destruct s as [|b s].
    + split; [done | intros H; by apply prefix_nil_not in H].
    + rewrite andb_true_iff, N.eqb_eq, IH. split.
      * intros [-> H]. by apply prefix_cons.
      * intros H. split; [by apply prefix_cons_inv_1 in H | by apply prefix_cons_inv_2 in H].
Qed.

Lemma replace_trailing_slash_snoc (v : jsstring) :
  replace_trailing_slash (v ++ lit "/") = v.
Proof.
  induction v as [|c v IH]; [done|].
  simpl. destruct (v ++ lit "/") eqn:E.
  - by destruct v.
  - by rewrite IH.
Qed.

Lemma replace_trailing_slash_other (u : jsstring) :
  (∀ v, u ≠ v ++ lit "/") → replace_trailing_slash u = u.
Proof.
  induction u as [|c u IH]; intros H; [done|].
  simpl. destruct u as [|d u].
  - destruct (N.eqb_spec c 0x2F) as [->|]; [|done].
    by destruct (H []).
  - rewrite IH; [done|]. intros v Hv. apply (H (c :: v)). by rewrite Hv.
Qed.

Lemma replace_trailing_slash_spec (u : jsstring) :
  App.strips_one_trailing_slash u (replace_trailing_slash u).
Proof.
  destruct u as [|c u _] using rev_ind.
  - right. split; [|done]. intros v Hv. by destruct v.
  - destruct (decide (c = 0x2F)) as [->|Hc].
    + left. exists u. by rewrite replace_trailing_slash_snoc.
    + assert (∀ v, u ++ [c] ≠ v ++ lit "/") as H.
      { intros v Hv. apply app_inj_tail in Hv as [_ ->]. done. }
      right. split; [done|]. by apply replace_trailing_slash_other.
Qed.

Lemma trimStart_spec (s : jsstring) :
  ∃ l, s = l ++ trimStart s ∧ Forall (λ c, is_whitespace c = true) l.
Proof.
  induction s as [|c s (l & IH & Hl)]; [by exists []|].
  simpl. destruct (is_whitespace c) eqn:Hc.
  - exists (c :: l). split; [by rewrite IH at 1 | by constructor].
  - by exists [].
Qed.

Lemma trim_spec (s : jsstring) :
  ∃ l r, s = l ++ trim s ++ r
         ∧ Forall (λ c, is_whitespace c = true) l
         ∧ Forall (λ c, is_whitespace c = true) r.
Proof.
  destruct (trimStart_spec s) as (l & Hs & Hl).
  destruct (trimStart_spec (rev (trimStart s))) as (r & Hr & Hwr).
  exists l, (rev r). split; [|split; [done|]].
  - unfold trim, trimEnd. rewrite <- rev_app_distr, <- Hr, rev_involutive. done.
  - apply Forall_forall. intros c Hc. rewrite Forall_forall in Hwr.
    apply Hwr. by apply list_elem_of_In, in_rev, list_elem_of_In.
Qed.

(** ** The add-friend flow *)

Section AddFriendProperties.

Context {platform : Platform}.
Import App.
Implicit Types (world : World) (st : AppState) (log : list Effect).

Ltac run_async :=
  cbv [fetch_profile post_friend addFriend_try mbind Async_bind bind
       fetch perform json lift throw ret fst snd].

Lemma fetch_profile_log world st log :
  fst (fetch_profile world st log)
  = log ++ [Fetch (GET (friendMeUrl (friendUrl st)))].
Proof.
  unfold friendMeUrl. run_async.
  destruct (world _) as [|status [d|]]; try done;
    destruct (negb (ok status)); try done.
  destruct (get_prop d _); try done.
  destruct (get_prop (animal st) _); try done.
  by destruct (strict_eq _ _).
Qed.

Lemma fetch_profile_returns world st log d :
  snd (fetch_profile world st log) = inr d →
  ∃ status friend_id own_id,
    world (GET (friendMeUrl (friendUrl st))) = Responds status (Some d)
    ∧ ok status = true
    ∧ get_prop d (lit "id") = inr friend_id
    ∧ get_prop (animal st) (lit "id") = inr own_id
    ∧ strict_eq friend_id own_id = false.
Proof.
  unfold friendMeUrl. run_async.
  destruct (world _) as [|status [d'|]]; try done;
    destruct (ok status) eqn:Hok; try done. simpl.
  destruct (get_prop d' _) as [|fid] eqn:Hf; try done.
  destruct (get_prop (animal st) _) as [|aid] eqn:Ha; try done.
  destruct (strict_eq _ _) eqn:He; try done.
  intros [= <-]. by exists status, fid, aid.
Qed.

Lemma fetch_profile_throws world st log :
  fetch_fails (world (GET (friendMeUrl (friendUrl st)))) = true →
  ∃ e, snd (fetch_profile world st log) = inl e.
Proof.
  unfold friendMeUrl, fetch_fails. run_async.
  destruct (world _) as [|status [d|]]; [by eexists| |].
  - rewrite bool_decide_true by eauto. rewrite orb_false_r.
    intros ->. by eexists.
  - intros _. destruct (negb (ok status)); by eexists.
Qed.

Lemma fetch_profile_self world st log status d friend_id own_id :
  world (GET (friendMeUrl (friendUrl st))) = Responds status (Some d) →
  ok status = true →
  get_prop d (lit "id") = inr friend_id →
  get_prop (animal st) (lit "id") = inr own_id →
  strict_eq friend_id own_id = true →
  snd (fetch_profile world st log)
  = inl (Error (lit "You can't add yourself as a friend!")).
Proof.
  unfold friendMeUrl. intros Hw Hok Hf Ha He. run_async.
  by rewrite Hw, Hok, Hf, Ha, He.
Qed.

(** Step 2 sends at most one request, the add request, and its body is
    built from the decoded profile and the canonical URL. *)
Lemma post_friend_log world st d log :
  (fst (post_friend world st d log) = log
   ∧ ∃ e, snd (post_friend world st d log) = inl e)
  ∨ ∃ b, fst (post_friend world st d log) = log ++ [Fetch (POST_friends b)]
         ∧ get_prop d (lit "id") = inr (unique_id b)
         ∧ hostname (friendInstanceUrl (friendUrl st)) = Some (dns_name b)
         ∧ get_prop d (lit "name") = inr (name b)
         ∧ ∀ newFriend,
             snd (post_friend world st d log) = inr newFriend →
             ∃ status, world (POST_friends b) = Responds status (Some newFriend)
                       ∧ ok status = true.
Proof.
  run_async.
  destruct (get_prop d (lit "id")) as [|fid] eqn:Hf; [left; eauto|].
  destruct (hostname _) as [h|] eqn:Hh; [|left; eauto].
  destruct (get_prop d (lit "name")) as [|nm] eqn:Hn; [left; eauto|].
  right. eexists {| unique_id := fid; dns_name := h; name := nm |}.
  destruct (world _) as [|status [body|]]; [by repeat split|..];
    destruct (ok status) eqn:Hok; simpl; repeat split; try done;
    try (by destruct (get_prop body _)).
  intros nf [= <-]. eauto.
Qed.

(** When step 1 throws, the handler ends in the [catch] block having
    sent the profile request only. *)
Lemma addFriend_step1_throws world st e :
  snd (fetch_profile world st []) = inl e →
  addFriend world st
  = (failed st e, [Fetch (GET (friendMeUrl (friendUrl st)))]).
Proof.
  intros He. pose proof (fetch_profile_log world st []) as Hlog.
  unfold addFriend, failed. cbv [addFriend_try mbind Async_bind bind].
  destruct (fetch_profile world st []) as [log1 r]. simpl in *.
  by subst.
Qed.

(** The effects of one run: the profile request alone, or the profile
    request, then the add request, then nothing but the timer. *)
Lemma addFriend_effects world st :
  let g := Fetch (GET (friendMeUrl (friendUrl st))) in
  snd (addFriend world st) = [g]
  ∨ ∃ d b rest,
      snd (fetch_profile world st []) = inr d
      ∧ snd (addFriend world st) = g :: Fetch (POST_friends b) :: rest
      ∧ Forall (λ e, is_add_request e = false) rest
      ∧ get_prop d (lit "id") = inr (unique_id b)
      ∧ hostname (friendInstanceUrl (friendUrl st)) = Some (dns_name b)
      ∧ get_prop d (lit "name") = inr (name b).
Proof.
  intros g. subst g. pose proof (fetch_profile_log world st []) as Hlog.
  destruct (snd (fetch_profile world st [])) as [e|d] eqn:Hr.
  { left. by rewrite (addFriend_step1_throws _ _ e). }
  pose proof (post_friend_log world st d
                [Fetch (GET (friendMeUrl (friendUrl st)))]) as Hpost.
  unfold addFriend. cbv [addFriend_try mbind Async_bind bind].
  destruct (fetch_profile world st []) as [log1 r]. simpl in *. subst.
  destruct (post_friend world st d _) as [log2 [e|newFriend]]; simpl in *.
  - destruct Hpost as [[-> _]|(b & -> & Hi & Hh & Hn & _)]; [by left|].
    right. by exists d, b, [].
  - destruct Hpost as [[_ [e [=]]]|(b & -> & Hi & Hh & Hn & _)].
    right. rewrite Hn. simpl.
    exists d, b, [SetTimeout 3000]. repeat split; try done.
    by repeat constructor.
Qed.

(** C1. The add request is sent only after the peer's profile was
    fetched from [<canonical>/api/me] with a success status and decoded,
    and it then directly follows the profile request. When that fetch
    fails (the promise rejects, the status is not a success, or the
    body does not decode) the handler ends with an error, the profile
    request is the only request it sent, and the friend list is
    untouched. *)
Theorem addFriend_fetch_before_add world st :
  let target := GET (friendMeUrl (friendUrl st)) in
  (∀ b, Fetch (POST_friends b) ∈ snd (addFriend world st) →
     fetch_fails (world target) = false
     ∧ ∃ rest, snd (addFriend world st)
               = Fetch target :: Fetch (POST_friends b) :: rest)
  ∧ (fetch_fails (world target) = true →
     ∃ e, addFriend world st = (failed st e, [Fetch target])).
Proof.
  intros target. subst target. split.
  - intros b Hb.
    destruct (addFriend_effects world st)
      as [Hlog|(d & b' & rest & Hd & Hlog & Hrest & _)];
      rewrite Hlog in Hb.
    + apply list_elem_of_singleton in Hb. discriminate.
    + apply fetch_profile_returns in Hd
        as (status & fid & aid & Hw & Hok & _).
      split.
      * rewrite Hw. unfold fetch_fails. rewrite Hok.
        by rewrite bool_decide_true by eauto.
      * apply elem_of_cons in Hb as [[=]|Hb].
        apply elem_of_cons in Hb as [[= ->]|Hb]; [by exists rest|].
        rewrite Forall_forall in Hrest. by apply Hrest in Hb.
  - intros Hf. destruct (fetch_profile_throws world st [] Hf) as [e He].
    exists e. by apply addFriend_step1_throws.
Qed.

(** C2. When the fetched profile's [id] is the caller's own [id], the
    handler ends with the self-link error; the profile request is the
    only request it sent, so nothing was added. *)
Theorem addFriend_rejects_self world st status d i :
  world (GET (friendMeUrl (friendUrl st))) = Responds status (Some d) →
  ok status = true →
  get_prop d (lit "id") = inr (VStr i) →
  get_prop (animal st) (lit "id") = inr (VStr i) →
  addFriend world st
  = (failed st (Error (lit "You can't add yourself as a friend!")),
     [Fetch (GET (friendMeUrl (friendUrl st)))]).
Proof.
  intros Hw Hok Hd Ha. apply addFriend_step1_throws.
  apply (fetch_profile_self world st [] status d (VStr i) (VStr i));
    try done.
  simpl. by apply bool_decide_eq_true.
Qed.

(** A run that ends without an error sent the add request, the backend
    accepted it, and the record it answered with is appended to the
    list. *)
Lemma addFriend_success world st :
  friendError (fst (addFriend world st)) = None →
  ∃ b newFriend status,
    snd (addFriend world st)
    = [Fetch (GET (friendMeUrl (friendUrl st))); Fetch (POST_friends b);
       SetTimeout 3000]
    ∧ world (POST_friends b) = Responds status (Some newFriend)
    ∧ ok status = true
    ∧ friends (fst (addFriend world st)) = friends st ++ [newFriend].
Proof.
  pose proof (fetch_profile_log world st []) as Hlog.
  unfold addFriend. cbv [addFriend_try mbind Async_bind bind].
  destruct (fetch_profile world st []) as [log1 [e|d]]; [done|].
  simpl in Hlog. subst log1.
  pose proof (post_friend_log world st d
                [Fetch (GET (friendMeUrl (friendUrl st)))]) as Hpost.
  destruct (post_friend world st d _) as [log2 [e|newFriend]]; [done|].
  simpl in Hpost.
  destruct Hpost as [[_ [e [=]]]|(b & -> & _ & _ & Hn & Hnew)].
  destruct (Hnew newFriend eq_refl) as (status & Hw & Hok).
  rewrite Hn. simpl. intros _. by exists b, newFriend, status.
Qed.

(** C9. Whenever the add request is sent, its body is
    [{unique_id: friendData.id, dns_name, name: friendData.name}] where
    [friendData] is the decoded profile and [dns_name] is the
    [hostname] of the canonical URL. Every run that ends without an
    error sent that request and the backend accepted it. *)
Theorem addFriend_candidate world st :
  (∀ b, Fetch (POST_friends b) ∈ snd (addFriend world st) →
     ∃ status friendData,
       world (GET (friendMeUrl (friendUrl st)))
       = Responds status (Some friendData)
       ∧ ok status = true
       ∧ get_prop friendData (lit "id") = inr (unique_id b)
       ∧ hostname (friendInstanceUrl (friendUrl st)) = Some (dns_name b)
       ∧ get_prop friendData (lit "name") = inr (name b))
  ∧ (friendError (fst (addFriend world st)) = None →
     ∃ b newFriend status,
       Fetch (POST_friends b) ∈ snd (addFriend world st)
       ∧ world (POST_friends b) = Responds status (Some newFriend)
       ∧ ok status = true
       ∧ friends (fst (addFriend world st)) = friends st ++ [newFriend]).
Proof.
  split.
  - intros b Hb.
    destruct (addFriend_effects world st)
      as [Hlog|(d & b' & rest & Hd & Hlog & Hrest & Hi & Hh & Hn)];
      rewrite Hlog in Hb.
    + apply list_elem_of_singleton in Hb. discriminate.
    + apply fetch_profile_returns in Hd as (status & fid & aid & Hw & Hok & _).
      exists status, d.
      apply elem_of_cons in Hb as [[=]|Hb].
      apply elem_of_cons in Hb as [[= ->]|Hb]; [done|].
      rewrite Forall_forall in Hrest. by apply Hrest in Hb.
  - intros Hok.
    destruct (addFriend_success world st Hok)
      as (b & newFriend & status & Hlog & Hw & Hs & Hf).
    exists b, newFriend, status. rewrite Hlog.
    repeat split; try done. apply list_elem_of_In. right. by left.
Qed.

(** C3, as the code has it. The typed text is trimmed first. The
    trimmed text gets [https://] in front unless it starts with
    [http://] or [https://]; then one trailing slash is dropped when
    there is one. The two scenarios give the same base URL, and the
    first request of the handler goes to [<canonical>/api/me]. *)
Theorem friendInstanceUrl_spec (typed : jsstring) :
  let t := trim typed in
  (∃ l r, typed = l ++ t ++ r
          ∧ Forall (λ c, is_whitespace c = true) l
          ∧ Forall (λ c, is_whitespace c = true) r)
  ∧ (¬ lit "http://" `prefix_of` t → ¬ lit "https://" `prefix_of` t →
     strips_one_trailing_slash (lit "https://" ++ t) (friendInstanceUrl typed))
  ∧ (lit "http://" `prefix_of` t ∨ lit "https://" `prefix_of` t →
     strips_one_trailing_slash t (friendInstanceUrl typed))
  ∧ friendInstanceUrl (lit "friend.example.com") = lit "https://friend.example.com"
  ∧ friendInstanceUrl (lit "https://friend.example.com/") = lit "https://friend.example.com"
  ∧ ∀ world st, ∃ rest,
      snd (addFriend world st)
      = Fetch (GET (friendInstanceUrl (friendUrl st) ++ lit "/api/me")) :: rest.
Proof.
  intros t. subst t. split; [apply trim_spec|].
  split; [|split; [|split; [|split]]]; try reflexivity.
  - intros H1 H2. unfold friendInstanceUrl.
    rewrite <- startsWith_prefix in H1, H2.
    apply not_true_is_false in H1, H2. rewrite H1, H2. simpl.
    apply replace_trailing_slash_spec.
  - intros H. unfold friendInstanceUrl.
    assert (negb (startsWith (trim typed) (lit "http://"))
            && negb (startsWith (trim typed) (lit "https://")) = false) as ->.
    { destruct H as [H|H]; apply startsWith_prefix in H; rewrite H;
        [done | apply andb_false_r]. }
    apply replace_trailing_slash_spec.
  - intros world st.
    destruct (addFriend_effects world st) as [->|(_ & b & rest & _ & -> & _)];
      eauto.
Qed.

End AddFriendProperties.

Lemma addFriend_fetch_before_add_witness :
  @App.addFriend Reference.platform Scenario.unavailable
    (Scenario.typed "friend.example.com")
  = (App.failed (Scenario.typed "friend.example.com")
       (Error (lit "Failed to fetch friend's profile from https://friend.example.com/api/me. Status: 503")),
     [App.Fetch (GET (lit "https://friend.example.com/api/me"))]).
Proof.
  destruct (proj2 (@addFriend_fetch_before_add Reference.platform
                     Scenario.unavailable (Scenario.typed "friend.example.com"))
              eq_refl) as [e He].
  rewrite He. vm_compute in He. by injection He as <-.
Defined.

Lemma addFriend_rejects_self_witness :
  @App.addFriend Reference.platform Scenario.loopback
    (Scenario.typed "https://peer.example.com")
  = (App.failed (Scenario.typed "https://peer.example.com")
       (Error (lit "You can't add yourself as a friend!")),
     [App.Fetch (GET (lit "https://peer.example.com/api/me"))]).
Proof.
  apply (@addFriend_rejects_self Reference.platform Scenario.loopback
           (Scenario.typed "https://peer.example.com") 200 Scenario.me
           (lit "self-123")); reflexivity.
Defined.

Lemma addFriend_candidate_witness :
  ∃ status friendData,
    Scenario.healthy (GET (lit "https://friend.example.com:8443/api/me"))
    = Responds status (Some friendData)
    ∧ ok status = true
    ∧ get_prop friendData (lit "id") = inr (VStr (lit "peer-456"))
    ∧ Reference.simple_hostname (lit "https://friend.example.com:8443")
      = Some (lit "friend.example.com")
    ∧ get_prop friendData (lit "name") = inr (VStr (lit "Kiki")).
Proof.
  apply (proj1 (@addFriend_candidate Reference.platform Scenario.healthy
                  (Scenario.typed " friend.example.com:8443/ "))
           {| unique_id := VStr (lit "peer-456");
              dns_name := lit "friend.example.com";
              name := VStr (lit "Kiki") |}).
  vm_compute. apply list_elem_of_In. right. left. reflexivity.
Defined.

Lemma friendInstanceUrl_spec_witness :
  App.strips_one_trailing_slash (lit "https://friend.example.com/")
    (App.friendInstanceUrl (lit "  friend.example.com/ ")).
Proof.
  apply (proj1 (proj2 (@friendInstanceUrl_spec Reference.platform
                         (lit "  friend.example.com/ ")))).
  - intros H. apply startsWith_prefix in H. discriminate H.
  - intros H. apply startsWith_prefix in H. discriminate H.
Defined.

(** C3 as worded, on the raw input: it fails on text with surrounding
    white space, which the code trims before it looks for a scheme. *)
Lemma friendInstanceUrl_not_on_raw_input :
  ¬ (∀ typed : jsstring,
       ¬ lit "http://" `prefix_of` typed →
       ¬ lit "https://" `prefix_of` typed →
       App.strips_one_trailing_slash (lit "https://" ++ typed)
         (App.friendInstanceUrl typed)).
Proof.
  intros H. specialize (H (lit " x")).
  destruct H as [(v & Hu & Hr)|[_ Hr]].
  - intros H. apply startsWith_prefix in H. discriminate H.
  - intros H. apply startsWith_prefix in H. discriminate H.
  - subst v. vm_compute in Hu. discriminate Hu.
  - vm_compute in Hr. discriminate Hr.
Qed.

(** ** The Monitoring component *)

Section MonitoringProperties.

Context {platform : Platform}.
Import Monitoring.
Implicit Types (s : Session) (ev : Event) (evs : list Event).

Lemma run_snoc evs ev : run (evs ++ [ev]) = step ev (run evs).
Proof. unfold run. by rewrite fold_left_app. Qed.

(** An induction principle for the states a session can reach. *)
Lemma run_ind (P : Session → Prop) :
  P mount → (∀ ev s, P s → P (step ev s)) → ∀ evs, P (run evs).
Proof.
  intros H0 Hstep evs. induction evs as [|ev evs IH] using rev_ind.
  - exact H0.
  - rewrite run_snoc. by apply Hstep.
Qed.

(** [checkHealth] touches [isChecking] and the requests in flight,
    nothing else. *)
Lemma checkHealth_frame captured s :
  instances (checkHealth captured s) = instances s
  ∧ instanceInput (checkHealth captured s) = instanceInput s
  ∧ healthStatuses (checkHealth captured s) = healthStatuses s
  ∧ lastChecked (checkHealth captured s) = lastChecked s
  ∧ instances_ref (checkHealth captured s) = instances_ref s
  ∧ mounted (checkHealth captured s) = mounted s
  ∧ intervals (checkHealth captured s) = intervals s
  ∧ cleanup (checkHealth captured s) = cleanup s
  ∧ next_interval (checkHealth captured s) = next_interval s.
Proof. by destruct captured. Qed.

Lemma checkHealth_sends c captured s :
  in_flight (checkHealth (c :: captured) s)
  = in_flight s ++ [{| cycle_id := next_cycle s;
                       instance_urls := c :: captured |}].
Proof. done. Qed.

(** Settling a request never touches the list, the intervals or the
    effect's dependency. *)
Lemma checkHealth_settled_frame o now s :
  instances (checkHealth_settled o now s) = instances s
  ∧ instanceInput (checkHealth_settled o now s) = instanceInput s
  ∧ instances_ref (checkHealth_settled o now s) = instances_ref s
  ∧ mounted (checkHealth_settled o now s) = mounted s
  ∧ intervals (checkHealth_settled o now s) = intervals s
  ∧ cleanup (checkHealth_settled o now s) = cleanup s
  ∧ in_flight (checkHealth_settled o now s) = in_flight s.
Proof.
  unfold checkHealth_settled.
  destruct o as [|status [data|]]; try done;
    destruct (negb (ok status)); try done.
  by destruct (build_statusMap data).
Qed.

Lemma run_cleanup_frame s :
  instances (run_cleanup s) = instances s
  ∧ instanceInput (run_cleanup s) = instanceInput s
  ∧ healthStatuses (run_cleanup s) = healthStatuses s
  ∧ lastChecked (run_cleanup s) = lastChecked s
  ∧ instances_ref (run_cleanup s) = instances_ref s
  ∧ mounted (run_cleanup s) = mounted s
  ∧ in_flight (run_cleanup s) = in_flight s
  ∧ next_cycle (run_cleanup s) = next_cycle s.
Proof. unfold run_cleanup. by destruct (cleanup s). Qed.

Lemma effect_invariant_one_interval s :
  effect_invariant s → one_interval s.
Proof.
  unfold effect_invariant, one_interval.
  destruct (mounted s); [|by left].
  destruct (instances s); [by left|].
  intros (id & Hi & Hc). right. eexists. by rewrite Hi, Hc.
Qed.

Lemma run_cleanup_clears s :
  one_interval s →
  intervals (run_cleanup s) = [] ∧ cleanup (run_cleanup s) = None.
Proof.
  unfold run_cleanup.
  intros [[Hi Hc]|(iv & Hi & Hc)]; rewrite Hc; [done|].
  simpl. rewrite Hi. by rewrite filter_cons_False by naive_solver.
Qed.

(** The effect after its cleanup: what it sets up, and what it leaves
    alone. *)
Lemma effect_rerun s :
  mounted s = true → one_interval s →
  let s' := effect_body (run_cleanup s) in
  effect_invariant s'
  ∧ instances s' = instances s
  ∧ instanceInput s' = instanceInput s
  ∧ healthStatuses s' = healthStatuses s
  ∧ lastChecked s' = lastChecked s
  ∧ mounted s' = true
  ∧ in_flight s'
    = match instances s with
      | [] => in_flight s
      | _ :: _ => in_flight s ++ [{| cycle_id := next_cycle s;
                                     instance_urls := instances s |}]
      end.
Proof.
  intros Hm Hone.
  destruct (run_cleanup_clears s Hone) as [Hi Hc].
  destruct (run_cleanup_frame s)
    as (Hl & Hin & Hh & Hlc & _ & Hm' & Hfl & Hnc).
  rewrite Hm in Hm'.
  revert Hi Hc Hl Hin Hh Hlc Hm' Hfl Hnc. generalize (run_cleanup s).
  intros r Hi Hc Hl Hin Hh Hlc Hm' Hfl Hnc.
  unfold effect_body, effect_invariant.
  rewrite <- Hl, <- Hin, <- Hh, <- Hlc, <- Hfl, <- Hnc.
  destruct (instances r) as [|c l] eqn:Hr; simpl.
  - by rewrite Hm', Hr.
  - rewrite Hm', Hr, Hi. simpl. repeat split; eauto.
Qed.

Lemma effect_invariant_frame s s' :
  mounted s' = mounted s → instances s' = instances s →
  intervals s' = intervals s → cleanup s' = cleanup s →
  effect_invariant s → effect_invariant s'.
Proof. unfold effect_invariant. by intros -> -> -> ->. Qed.

Lemma commit_same s s' :
  instances_ref s = instances_ref s' → commit s s' = s'.
Proof. intros H. unfold commit. by rewrite decide_True. Qed.

Lemma commit_rerun s s' :
  instances_ref s' = S (instances_ref s) →
  commit s s' = effect_body (run_cleanup s').
Proof. intros H. unfold commit. rewrite decide_False; [done|lia]. Qed.

Lemma mount_invariant : effect_invariant mount.
Proof. unfold effect_invariant. simpl. eauto. Qed.

Lemma step_invariant ev s : effect_invariant s → effect_invariant (step ev s).
Proof.
  intros Hinv. pose proof (effect_invariant_one_interval s Hinv) as Hone.
  unfold step. destruct ev as [value| |url|id|id o now|]; simpl.
  - destruct (mounted s) eqn:Hm; by rewrite commit_same.
  - destruct (mounted s) eqn:Hm; [|by rewrite commit_same].
    unfold addInstance. destruct (is_empty _); [by rewrite commit_same|].
    case_bool_decide; [by rewrite commit_same|].
    rewrite commit_rerun by done. by apply effect_rerun.
  - destruct (mounted s) eqn:Hm; [|by rewrite commit_same].
    rewrite commit_rerun by done. by apply effect_rerun.
  - destruct (has_interval id s) as [iv|]; [|by rewrite commit_same].
    destruct (checkHealth_frame (closure_instances iv) s)
      as (Hl & _ & _ & _ & Hr & Hm & Hi & Hc & _).
    rewrite commit_same by done. by apply (effect_invariant_frame s).
  - destruct (has_cycle id s); [|by rewrite commit_same].
    destruct (mounted s) eqn:Hm; [|by rewrite commit_same].
    destruct (checkHealth_settled_frame o now (settle_cycle id s))
      as (Hl & _ & Hr & Hm' & Hi & Hc & _).
    rewrite commit_same by done. by apply (effect_invariant_frame s).
  - destruct (mounted s) eqn:Hm; [|by rewrite commit_same].
    destruct (run_cleanup_clears s Hone) as [Hi Hc].
    destruct (run_cleanup_frame s) as (_ & _ & _ & _ & Hr & _).
    rewrite commit_same by done.
    unfold effect_invariant, unmount. simpl. by rewrite Hi, Hc.
Qed.

Lemma reachable_invariant evs : effect_invariant (run evs).
Proof. apply run_ind; [apply mount_invariant | apply step_invariant]. Qed.

(** A render never changes the state cells a handler wrote, except
    [isChecking]. *)
Lemma commit_frame s s' :
  instances (commit s s') = instances s'
  ∧ instanceInput (commit s s') = instanceInput s'
  ∧ healthStatuses (commit s s') = healthStatuses s'
  ∧ lastChecked (commit s s') = lastChecked s'
  ∧ mounted (commit s s') = mounted s'.
Proof.
  unfold commit. case_decide; [done|].
  destruct (run_cleanup_frame s') as (Hl & Hin & Hh & Hlc & _ & Hm & _).
  rewrite <- Hl, <- Hin, <- Hh, <- Hlc, <- Hm.
  generalize (run_cleanup s'). intros r. unfold effect_body.
  destruct (instances r) as [|c l] eqn:E; [done|]. simpl.
  by rewrite E.
Qed.

Lemma removeInstance_instances url s :
  instances (removeInstance url s)
  = filter (λ instance, instance ≠ url) (instances s).
Proof. done. Qed.

Lemma removeInstance_healthStatuses url s :
  healthStatuses (removeInstance url s) = delete url (healthStatuses s).
Proof. done. Qed.

(** C7. [removeInstance url] takes [url] out of the list and deletes
    its entry from the status map; the other URLs stay in the list and
    keep their entries. The same holds once the render that follows
    the click is committed. *)
Theorem removeInstance_frame url s :
  ∀ s', s' = removeInstance url s
        ∨ (mounted s = true ∧ s' = step (Remove url) s) →
    (url ∉ instances s')
    ∧ (∀ u, u ∈ instances s' ↔ u ∈ instances s ∧ u ≠ url)
    ∧ healthStatuses s' !! url = None
    ∧ (∀ u, u ≠ url → healthStatuses s' !! u = healthStatuses s !! u).
Proof.
  intros s' Hs'.
  assert (instances s' = filter (λ instance, instance ≠ url) (instances s)
          ∧ healthStatuses s' = delete url (healthStatuses s)) as [-> ->].
  { destruct Hs' as [->|[Hm ->]]; [done|].
    unfold step. simpl. rewrite Hm.
    by destruct (commit_frame s (removeInstance url s)) as (-> & _ & -> & _). }
  split; [|split; [|split]].
  - by intros [? _]%list_elem_of_filter.
  - intros u. rewrite list_elem_of_filter. tauto.
  - apply lookup_delete_eq.
  - intros u Hu. by apply lookup_delete_ne.
Qed.

Lemma step_instances ev s :
  instances (step ev s)
  = match ev with
    | Submit => if mounted s then instances (addInstance s) else instances s
    | Remove url =>
        if mounted s
        then filter (λ instance, instance ≠ url) (instances s)
        else instances s
    | _ => instances s
    end.
Proof.
  unfold step. destruct (commit_frame s (handle ev s)) as (-> & _).
  destruct ev as [value| |url|id|id o now|]; simpl;
    try (by destruct (mounted s)).
  - destruct (has_interval id s) as [iv|]; [|done].
    by destruct (checkHealth_frame (closure_instances iv) s) as (-> & _).
  - destruct (has_cycle id s); [|done]. destruct (mounted s); [|done].
    by destruct (checkHealth_settled_frame o now (settle_cycle id s))
      as (-> & _).
  - destruct (mounted s); [|done]. unfold unmount. simpl.
    by destruct (run_cleanup_frame s) as (-> & _).
Qed.

Lemma addInstance_instances s :
  instances (addInstance s)
  = if is_empty (trim (instanceInput s)) then instances s
    else if bool_decide (trim (instanceInput s) ∈ instances s) then instances s
    else instances s ++ [trim (instanceInput s)].
Proof.
  unfold addInstance. destruct (is_empty _); [done|]. by case_bool_decide.
Qed.

Lemma defaultInstances_NoDup : NoDup defaultInstances.
Proof. apply (bool_decide_unpack _). by vm_compute. Qed.

Lemma step_NoDup ev s : NoDup (instances s) → NoDup (instances (step ev s)).
Proof.
  intros H. rewrite step_instances.
  destruct ev as [value| |url|id|id o now|]; try done.
  - destruct (mounted s); [|done]. rewrite addInstance_instances.
    destruct (is_empty _); [done|]. case_bool_decide; [done|].
    apply NoDup_app. repeat split; [done| |apply NoDup_singleton].
    intros x Hx ->%list_elem_of_singleton. done.
  - destruct (mounted s); [|done]. by apply NoDup_filter.
Qed.

(** C8. The list of monitored URLs never holds the same string twice:
    it starts without duplicates, [addInstance] leaves it alone when
    the trimmed input is already there, [removeInstance] only takes
    elements out, and every event preserves the property. Strings are
    compared as they are: [http://x] and [https://x/] are both kept. *)
Theorem instances_NoDup :
  (∀ evs, NoDup (instances (run evs)))
  ∧ (∀ s, trim (instanceInput s) ∈ instances s →
          instances (addInstance s) = instances s)
  ∧ (∀ url s, instances (removeInstance url s) `sublist_of` instances s)
  ∧ instances (run [Change (lit "http://x"); Submit;
                    Change (lit "https://x/"); Submit])
    = defaultInstances ++ [lit "http://x"; lit "https://x/"].
Proof.
  split; [|split; [|split]].
  - apply (run_ind (λ s, NoDup (instances s)));
      [apply defaultInstances_NoDup | apply step_NoDup].
  - intros s Hin. rewrite addInstance_instances.
    destruct (is_empty _); [done|]. by rewrite bool_decide_true.
  - intros url s. rewrite removeInstance_instances. apply sublist_filter.
  - by vm_compute.
Qed.

(** C10. When the cycle fails as a whole, the status map and the
    time of the last check keep their values (and so do the list and
    the input); the one state cell written is [isChecking], which is
    cleared. *)
Theorem failed_cycle_keeps_state id o now s :
  cycle_fails o = true →
  let s' := step (Settled id o now) s in
  healthStatuses s' = healthStatuses s
  ∧ lastChecked s' = lastChecked s
  ∧ instances s' = instances s
  ∧ instanceInput s' = instanceInput s
  ∧ intervals s' = intervals s
  ∧ (mounted s = true → is_Some (has_cycle id s) → isChecking s' = false).
Proof.
  intros Hf. unfold step. simpl.
  destruct (has_cycle id s) as [c|];
    [|rewrite commit_same by done; repeat split; by intros _ []].
  destruct (mounted s) eqn:Hm; [|by rewrite commit_same].
  destruct (checkHealth_settled_frame o now (settle_cycle id s))
    as (_ & _ & Hr & _).
  rewrite commit_same by done.
  unfold cycle_fails in Hf. unfold checkHealth_settled.
  destruct o as [|status [data|]]; try done;
    destruct (negb (ok status)); try done.
  simpl in Hf. by destruct (build_statusMap data).
Qed.

(** A live interval of a reachable session is the one the invariant
    describes. *)
Lemma live_interval evs id iv :
  has_interval id (run evs) = Some iv →
  mounted (run evs) = true
  ∧ instances (run evs) ≠ []
  ∧ intervals (run evs) = [iv]
  ∧ iv = {| interval_id := id; period_ms := 5000;
            closure_instances := instances (run evs) |}.
Proof.
  pose proof (reachable_invariant evs) as Hinv.
  unfold effect_invariant, has_interval in *.
  destruct (mounted (run evs)); [|destruct Hinv as [-> _]; done].
  destruct (instances (run evs)) as [|c l]; [destruct Hinv as [-> _]; done|].
  destruct Hinv as (id' & -> & _). simpl.
  case_bool_decide; [|done]. intros [= <-]. by subst.
Qed.

(** C4, as the code has it. The callback of the interval has no guard:
    whenever a live interval fires, a new request is sent for the
    current list, whatever is still in flight. *)
Theorem tick_starts_cycle evs id iv :
  has_interval id (run evs) = Some iv →
  in_flight (step (Tick id) (run evs))
  = in_flight (run evs)
      ++ [{| cycle_id := next_cycle (run evs);
             instance_urls := instances (run evs) |}].
Proof.
  intros Hiv. destruct (live_interval evs id iv Hiv) as (_ & Hne & _ & ->).
  unfold step. simpl. rewrite Hiv. simpl.
  destruct (instances (run evs)) as [|c l] eqn:Hl; [done|].
  by rewrite commit_same.
Qed.

(** C5, as the code has it. While the list is non-empty there is one
    interval of 5000 ms and each of its firings starts a cycle for the
    current list. While the list is empty there is no interval: the
    effect's cleanup cleared it and the effect returned before creating
    another, so nothing fires until a URL is added. *)
Theorem polling_interval evs :
  mounted (run evs) = true →
  (instances (run evs) ≠ [] →
     ∃ id, intervals (run evs)
           = [{| interval_id := id; period_ms := 5000;
                 closure_instances := instances (run evs) |}]
           ∧ in_flight (step (Tick id) (run evs))
             = in_flight (run evs)
                 ++ [{| cycle_id := next_cycle (run evs);
                        instance_urls := instances (run evs) |}])
  ∧ (instances (run evs) = [] →
     intervals (run evs) = [] ∧ ∀ id, step (Tick id) (run evs) = run evs).
Proof.
  intros Hm. pose proof (reachable_invariant evs) as Hinv.
  unfold effect_invariant in Hinv. rewrite Hm in Hinv. split.
  - intros Hne.
    destruct (instances (run evs)) as [|c l] eqn:Hl; [done|].
    destruct Hinv as (id & Hi & _). exists id. split; [done|].
    rewrite <- Hl.
    apply (tick_starts_cycle evs id
             {| interval_id := id; period_ms := 5000;
                closure_instances := c :: l |}).
    unfold has_interval. rewrite Hi. simpl. by rewrite bool_decide_true.
  - intros Hl. rewrite Hl in Hinv. destruct Hinv as [Hi _].
    split; [done|]. intros id. unfold step. simpl.
    unfold has_interval. rewrite Hi. simpl. by rewrite commit_same.
Qed.

(** C6, as the code has it. A successful [addInstance] replaces the
    [instances] array, so the effect runs again: a health check that
    includes the new URL is sent in the same turn, and the interval is
    replaced by one that reads the new list. *)
Theorem addInstance_probes_at_once evs :
  let s := run evs in
  let url := trim (instanceInput s) in
  mounted s = true → url ≠ [] → url ∉ instances s →
  instances (step Submit s) = instances s ++ [url]
  ∧ in_flight (step Submit s)
    = in_flight s ++ [{| cycle_id := next_cycle s;
                         instance_urls := instances s ++ [url] |}]
  ∧ ∃ id, intervals (step Submit s)
          = [{| interval_id := id; period_ms := 5000;
                closure_instances := instances s ++ [url] |}].
Proof.
  intros s url Hm Hne Hnew. subst url.
  pose proof (effect_invariant_one_interval s (reachable_invariant evs))
    as Hone.
  unfold step. simpl. rewrite Hm. unfold addInstance.
  destruct (trim (instanceInput s)) as [|c t] eqn:Ht; [done|]. simpl.
  rewrite bool_decide_false by done.
  rewrite commit_rerun by done.
  match goal with
  | |- context [run_cleanup ?a] =>
      destruct (effect_rerun a) as (Hinv & Hl & _ & _ & _ & Hm' & Hfl);
        [done | exact Hone |]
  end.
  simpl in Hl, Hfl. rewrite Hl, Hfl.
  unfold effect_invariant in Hinv. rewrite Hm', Hl in Hinv.
  destruct (instances s ++ [c :: t]) as [|x l] eqn:Happ.
  { by destruct (instances s). }
  destruct Hinv as (id & Hi & _). eauto.
Qed.

End MonitoringProperties.

Lemma removeInstance_frame_witness :
  let s := @Monitoring.run Reference.platform [Scenario.first_answer] in
  let url := lit "https://viscon.monomorphic.party" in
  let s' := @Monitoring.step Reference.platform (Monitoring.Remove url) s in
  Monitoring.healthStatuses s !! url
  = Some (Scenario.status "https://viscon.monomorphic.party" true)
  ∧ Monitoring.healthStatuses s' !! url = None
  ∧ Monitoring.healthStatuses s' !! lit "https://dj-viscon-workshop-0.vsos.ethz.ch"
    = Some (Scenario.status "https://dj-viscon-workshop-0.vsos.ethz.ch" false).
Proof.
  intros s url s'.
  destruct (@removeInstance_frame Reference.platform url s s'
              (or_intror (conj eq_refl eq_refl))) as (_ & _ & Hgone & Hkept).
  split; [by vm_compute|]. split; [exact Hgone|].
  rewrite Hkept; [by vm_compute | discriminate].
Defined.

Lemma instances_NoDup_witness :
  NoDup (Monitoring.instances
           (@Monitoring.run Reference.platform
              [Monitoring.Change (lit "http://x"); Monitoring.Submit;
               Monitoring.Change (lit " http://x "); Monitoring.Submit])).
Proof. apply (proj1 (@instances_NoDup Reference.platform)). Defined.

Lemma failed_cycle_keeps_state_witness :
  let s := @Monitoring.run Reference.platform [Scenario.first_answer; Monitoring.Tick 0] in
  let s' := @Monitoring.step Reference.platform
              (Monitoring.Settled 1 (Responds 500 None) 1700000005000) s in
  Monitoring.healthStatuses s' = Monitoring.healthStatuses s
  ∧ Monitoring.lastChecked s' = Some 1700000000000
  ∧ Monitoring.isChecking s = true
  ∧ Monitoring.isChecking s' = false.
Proof.
  intros s s'.
  destruct (@failed_cycle_keeps_state Reference.platform 1 (Responds 500 None)
              1700000005000 s eq_refl) as (Hh & Hl & _ & _ & _ & Hc).
  subst s'. split; [exact Hh|]. split; [rewrite Hl; by vm_compute|].
  split; [by vm_compute|]. apply Hc; [by vm_compute|].
  vm_compute. eauto.
Defined.

Lemma tick_starts_cycle_witness :
  Monitoring.in_flight
    (@Monitoring.step Reference.platform (Monitoring.Tick 0)
       (@Monitoring.run Reference.platform []))
  = [ {| Monitoring.cycle_id := 0;
         Monitoring.instance_urls := Monitoring.defaultInstances |};
      {| Monitoring.cycle_id := 1;
         Monitoring.instance_urls := Monitoring.defaultInstances |} ].
Proof.
  rewrite (@tick_starts_cycle Reference.platform [] 0
             {| Monitoring.interval_id := 0; Monitoring.period_ms := 5000;
                Monitoring.closure_instances := Monitoring.defaultInstances |});
    reflexivity.
Defined.

Lemma polling_interval_witness :
  Monitoring.intervals (@Monitoring.run Reference.platform Scenario.remove_all) = []
  ∧ ∀ id, @Monitoring.step Reference.platform (Monitoring.Tick id)
            (@Monitoring.run Reference.platform Scenario.remove_all)
          = @Monitoring.run Reference.platform Scenario.remove_all.
Proof.
  apply (proj2 (@polling_interval Reference.platform Scenario.remove_all eq_refl)).
  by vm_compute.
Defined.

Lemma addInstance_probes_at_once_witness :
  Monitoring.in_flight
    (@Monitoring.step Reference.platform Monitoring.Submit
       (@Monitoring.run Reference.platform
          [Monitoring.Change (lit " https://new.example ")]))
  = [ {| Monitoring.cycle_id := 0;
         Monitoring.instance_urls := Monitoring.defaultInstances |};
      {| Monitoring.cycle_id := 1;
         Monitoring.instance_urls :=
           Monitoring.defaultInstances ++ [lit "https://new.example"] |} ].
Proof.
  destruct (@addInstance_probes_at_once Reference.platform
              [Monitoring.Change (lit " https://new.example ")])
    as (_ & Hfl & _).
  - reflexivity.
  - discriminate.
  - apply (bool_decide_unpack _). by vm_compute.
  - rewrite Hfl. reflexivity.
Defined.

(** C4 as worded: at most one cycle in flight. The interval fires five
    seconds after mounting while the first request is still pending, and
    two requests are in flight. *)
Lemma cycles_overlap :
  ¬ (∀ (platform : Platform) (evs : list Monitoring.Event),
       (length (Monitoring.in_flight (Monitoring.run evs)) ≤ 1)%nat).
Proof.
  intros H. specialize (H Reference.platform [Monitoring.Tick 0]).
  vm_compute in H. lia.
Qed.

(** C5 as worded: the interval keeps running while the list is empty.
    After the last URL is removed no interval is left. *)
Lemma no_interval_when_empty :
  ¬ (∀ (platform : Platform) (evs : list Monitoring.Event),
       Monitoring.mounted (Monitoring.run evs) = true →
       Monitoring.instances (Monitoring.run evs) = [] →
       Monitoring.intervals (Monitoring.run evs) ≠ []).
Proof.
  intros H.
  apply (H Reference.platform Scenario.remove_all); by vm_compute.
Qed.

(** C6 as worded: adding a URL sends no request. Submitting a new URL
    sends one in the same turn. *)
Lemma addInstance_sends_request :
  ¬ (∀ (platform : Platform) (evs : list Monitoring.Event),
       Monitoring.mounted (Monitoring.run evs) = true →
       Monitoring.in_flight (Monitoring.step Monitoring.Submit (Monitoring.run evs))
       = Monitoring.in_flight (Monitoring.run evs)).
Proof.
  intros H.
  specialize (H Reference.platform
                [Monitoring.Change (lit "https://new.example")] eq_refl).
  vm_compute in H. discriminate H.
Qed.

(** ** More on the add-friend flow *)

Section AddFriendOutcomes.

Context {platform : Platform}.
Import App.
Implicit Types (world : World) (st : AppState) (log : list Effect).



(** X2. A run that ends without an error went through every check: the
    profile was fetched and decoded, its [id] is not the caller's, the
    canonical URL parsed, and the backend accepted the candidate. *)
Theorem addFriend_success_requires world st :
  friendError (fst (addFriend world st)) = None →
  ∃ status d b own_id status' nf,
    world (GET (friendMeUrl (friendUrl st))) = Responds status (Some d)
    ∧ ok status = true
    ∧ get_prop d (lit "id") = inr (unique_id b)
    ∧ get_prop (animal st) (lit "id") = inr own_id
    ∧ strict_eq (unique_id b) own_id = false
    ∧ hostname (friendInstanceUrl (friendUrl st)) = Some (dns_name b)
    ∧ get_prop d (lit "name") = inr (name b)
    ∧ world (POST_friends b) = Responds status' (Some nf)
    ∧ ok status' = true.
Proof.
  pose proof (fetch_profile_log world st []) as Hlog.
  pose proof (fetch_profile_returns world st []) as Hret.
  unfold addFriend. cbv [addFriend_try mbind Async_bind bind].
  destruct (fetch_profile world st []) as [log1 [e|d]]; [done|].
  simpl in Hlog. subst log1.
  destruct (Hret d eq_refl) as (status & fid & aid & Hw & Hok & Hf & Ha & He).
  pose proof (post_friend_log world st d
                [Fetch (GET (friendMeUrl (friendUrl st)))]) as Hpost.
  destruct (post_friend world st d _) as [log2 [e|nf]]; [done|].
  simpl in Hpost.
  destruct Hpost as [[_ [e [=]]]|(b & _ & Hi & Hh & Hn & Hnew)].
  destruct (Hnew nf eq_refl) as (status' & Hp & Hok').
  intros _. exists status, d, b, aid, status', nf.
  rewrite Hf in Hi. injection Hi as <-. done.
Qed.



End AddFriendOutcomes.


Lemma addFriend_success_requires_witness :
  ∃ b, Reference.simple_hostname (lit "https://friend.example.com")
       = Some (dns_name b)
       ∧ unique_id b = VStr (lit "peer-456").
Proof.
  destruct (@addFriend_success_requires Reference.platform Scenario.healthy
              (Scenario.typed "friend.example.com/") eq_refl)
    as (status & d & b & own & status' & nf & Hw & _ & Hi & _ & _ & Hh & _).
  exists b. split; [exact Hh|].
  injection Hw as _ <-.
  change (@inr Exn JsVal (VStr (lit "peer-456")) = inr (unique_id b)) in Hi.
  by injection Hi as <-.
Defined.


(** ** More on strings *)

Lemma trimStart_head (s : jsstring) (c : N) (t : jsstring) :
  trimStart s = c :: t → is_whitespace c = false.
Proof.
  induction s as [|d s IH]; [done|].
  simpl. destruct (is_whitespace d) eqn:Hd; [done|]. by intros [= <- _].
Qed.

Lemma trimStart_app_ws (l s : jsstring) :
  Forall (λ c, is_whitespace c = true) l → trimStart (l ++ s) = trimStart s.
Proof.
  induction 1 as [|c l Hc _ IH]; [done|]. simpl. by rewrite Hc.
Qed.

Lemma trimStart_all_ws (s : jsstring) :
  Forall (λ c, is_whitespace c = true) s ↔ trimStart s = [].
Proof.
  induction s as [|c s IH]; [done|]. simpl.
  destruct (is_whitespace c) eqn:Hc.
  - rewrite <- IH. split; [by inversion 1 | by constructor].
  - split; [|done]. inversion 1; congruence.
Qed.

Lemma trimStart_app_keep (s r : jsstring) :
  trimStart s ≠ [] → trimStart (s ++ r) = trimStart s ++ r.
Proof.
  induction s as [|c s IH]; [done|]. simpl.
  by destruct (is_whitespace c).
Qed.

Lemma trimStart_fixed (s : jsstring) :
  (∀ c t, s = c :: t → is_whitespace c = false) → trimStart s = s.
Proof.
  destruct s as [|c t]; [done|]. intros H. simpl. by rewrite (H c t).
Qed.

Lemma trimEnd_app_ws (s r : jsstring) :
  Forall (λ c, is_whitespace c = true) r → trimEnd (s ++ r) = trimEnd s.
Proof.
  intros Hr. unfold trimEnd. rewrite rev_app_distr, trimStart_app_ws; [done|].
  apply Forall_forall. intros c Hc. rewrite Forall_forall in Hr.
  apply Hr. by apply list_elem_of_In, in_rev, list_elem_of_In.
Qed.

(** White space around a text does not change what [trim] gives. *)
Lemma trim_padded (l s r : jsstring) :
  Forall (λ c, is_whitespace c = true) l →
  Forall (λ c, is_whitespace c = true) r →
  trim (l ++ s ++ r) = trim s.
Proof.
  intros Hl Hr. unfold trim. rewrite trimStart_app_ws by done.
  destruct (trimStart s) as [|c t] eqn:Hs.
  - apply trimStart_all_ws in Hs.
    assert (trimStart (s ++ r) = []) as ->; [|done].
    apply trimStart_all_ws. by apply Forall_app.
  - rewrite trimStart_app_keep by congruence. rewrite Hs.
    by apply trimEnd_app_ws.
Qed.

Lemma trimEnd_prefix (s : jsstring) : ∃ r, s = trimEnd s ++ r.
Proof.
  destruct (trimStart_spec (rev s)) as (l & Hl & _).
  exists (rev l). unfold trimEnd.
  by rewrite <- rev_app_distr, <- Hl, rev_involutive.
Qed.

Lemma trim_idemp (s : jsstring) : trim (trim s) = trim s.
Proof.
  unfold trim at 1.
  assert (trimStart (trim s) = trim s) as ->.
  { apply trimStart_fixed. intros c t Ht. unfold trim in Ht.
    destruct (trimEnd_prefix (trimStart s)) as [r Hr].
    rewrite Ht in Hr. by apply (trimStart_head s c (t ++ r)). }
  unfold trim, trimEnd. rewrite rev_involutive.
  rewrite (trimStart_fixed (trimStart _)); [done|].
  intros c t. apply trimStart_head.
Qed.

Lemma trim_nonempty_head (s : jsstring) (c : N) (t : jsstring) :
  trim s = c :: t → is_whitespace c = false.
Proof.
  intros Ht. unfold trim in Ht.
  destruct (trimEnd_prefix (trimStart s)) as [r Hr].
  rewrite Ht in Hr. by apply (trimStart_head s c (t ++ r)).
Qed.

Lemma prefix_snoc_cases (p v : jsstring) (c : N) :
  p `prefix_of` v ++ [c] → p = v ++ [c] ∨ p `prefix_of` v.
Proof.
  intros [k Hk]. destruct k as [|x k _] using rev_ind.
  - left. by rewrite app_nil_r in Hk.
  - right. rewrite app_assoc in Hk. apply app_inj_tail in Hk as [-> _].
    by apply prefix_app_r.
Qed.

(** Dropping the trailing slash keeps every proper prefix. *)
Lemma replace_trailing_slash_prefix (p u : jsstring) :
  p `prefix_of` u → p ≠ u → p `prefix_of` replace_trailing_slash u.
Proof.
  intros Hp Hne.
  destruct (replace_trailing_slash_spec u) as [(v & -> & ->)|[_ ->]]; [|done].
  by destruct (prefix_snoc_cases p v _ Hp).
Qed.

Section CanonicalUrl.

Import App.

(** X5. White space typed around the address does not change the
    canonical URL, hence not the profile that is fetched. *)
Theorem friendInstanceUrl_padded (l s r : jsstring) :
  Forall (λ c, is_whitespace c = true) l →
  Forall (λ c, is_whitespace c = true) r →
  friendInstanceUrl (l ++ s ++ r) = friendInstanceUrl s
  ∧ friendMeUrl (l ++ s ++ r) = friendMeUrl s.
Proof.
  intros Hl Hr. unfold friendMeUrl, friendInstanceUrl.
  by rewrite trim_padded.
Qed.

(** X6. The canonical URL starts with [http://] or [https://], except
    when the trimmed text is empty or is a bare scheme: then the slash
    that is dropped is one of the scheme's own, the result is [https:/]
    or [http:/], and the profile is requested from [https://api/me] or
    [http://api/me]. *)
Theorem friendInstanceUrl_scheme (typed : jsstring) :
  let t := trim typed in
  (t ≠ [] → t ≠ lit "http://" → t ≠ lit "https://" →
   lit "http://" `prefix_of` friendInstanceUrl typed
   ∨ lit "https://" `prefix_of` friendInstanceUrl typed)
  ∧ (t = [] ∨ t = lit "https://" → friendMeUrl typed = lit "https://api/me")
  ∧ (t = lit "http://" → friendMeUrl typed = lit "http://api/me").
Proof.
  intros t. subst t. split; [|split].
  - intros Hne H1 H2. unfold friendInstanceUrl.
    destruct (startsWith (trim typed) (lit "http://")) eqn:E1;
      destruct (startsWith (trim typed) (lit "https://")) eqn:E2;
      cbn [negb andb].
    + left. apply replace_trailing_slash_prefix; [|exact (not_eq_sym H1)].
      by apply startsWith_prefix.
    + left. apply replace_trailing_slash_prefix; [|exact (not_eq_sym H1)].
      by apply startsWith_prefix.
    + right. apply replace_trailing_slash_prefix; [|exact (not_eq_sym H2)].
      by apply startsWith_prefix.
    + right. apply replace_trailing_slash_prefix; [by apply prefix_app_r|].
      intros H. apply Hne. apply (f_equal length) in H.
      rewrite length_app in H. destruct (trim typed); [done|].
      cbn [length] in H. lia.
  - unfold friendMeUrl, friendInstanceUrl. by intros [->| ->].
  - unfold friendMeUrl, friendInstanceUrl. by intros ->.
Qed.

End CanonicalUrl.

Lemma friendInstanceUrl_padded_witness :
  App.friendMeUrl (lit "  friend.example.com/ ")
  = App.friendMeUrl (lit "friend.example.com/").
Proof.
  apply (proj2 (friendInstanceUrl_padded (lit "  ") (lit "friend.example.com/")
                  (lit " ") ltac:(by repeat constructor)
                  ltac:(by repeat constructor))).
Defined.

Lemma friendInstanceUrl_scheme_witness :
  App.friendMeUrl (lit " https:// ") = lit "https://api/me".
Proof.
  apply (proj1 (proj2 (friendInstanceUrl_scheme (lit " https:// ")))).
  by right.
Defined.

(** ** The host name on an instance card *)

Section HostnameShown.

Import Display.

Lemma replace_first_unfold (s pat : jsstring) :
  replace_first s pat
  = if startsWith s pat then drop (length pat) s
    else match s with
         | [] => []
         | c :: s' => c :: replace_first s' pat
         end.
Proof. by destruct s. Qed.

Lemma replace_first_absent (pat s : jsstring) :
  ¬ occurs pat s → replace_first s pat = s.
Proof.
  induction s as [|c s IH]; intros Hno; rewrite replace_first_unfold;
    destruct (startsWith _ pat) eqn:E.
  - apply startsWith_prefix in E as [k Hk]. destruct Hno. by exists [], k.
  - done.
  - apply startsWith_prefix in E as [k Hk]. destruct Hno. by exists [], k.
  - f_equal. apply IH. intros (a & b & ->). apply Hno. by exists (c :: a), b.
Qed.

Lemma replace_first_prefix (pat h : jsstring) :
  replace_first (pat ++ h) pat = h.
Proof.
  rewrite replace_first_unfold.
  assert (startsWith (pat ++ h) pat = true) as ->.
  { apply startsWith_prefix. by apply prefix_app_r. }
  by rewrite drop_app_length.
Qed.

(** When [pat] occurs, exactly one copy of it is taken out. *)
Lemma replace_first_occurs (pat s : jsstring) :
  occurs pat s →
  (length (replace_first s pat) + length pat = length s)%nat.
Proof.
  induction s as [|c s IH]; intros (a & b & Hs); rewrite replace_first_unfold;
    destruct (startsWith _ pat) eqn:E.
  - apply startsWith_prefix in E as [k ->].
    rewrite drop_app_length, length_app. lia.
  - destruct a; [|done]. simpl in Hs.
    assert (startsWith [] pat = true) as E'; [|congruence].
    apply startsWith_prefix. rewrite Hs. by apply prefix_app_r.
  - apply startsWith_prefix in E as [k ->].
    rewrite drop_app_length, length_app. lia.
  - destruct a as [|x a].
    + assert (startsWith (c :: s) pat = true) as E'; [|congruence].
      apply startsWith_prefix. rewrite Hs. by apply (prefix_app_r pat pat b).
    + injection Hs as _ Hs. cbn [length]. rewrite <- (IH ltac:(by exists a, b)).
      lia.
Qed.

(** [https://] cannot begin inside the seven characters of [http://]. *)
Lemma https_after_http (h : jsstring) :
  occurs (lit "https://") (lit "http://" ++ h) → occurs (lit "https://") h.
Proof.
  intros (a & b & H).
  do 7 (destruct a as [|? a]; [cbv in H; discriminate H|]; cbv in H;
        injection H as _ H).
  exists a, b. exact H.
Qed.

(** X7. The text shown for an instance is the URL without its scheme:
    for [https://h] and [http://h] it is [h], provided no scheme text
    occurs again inside [h]; a URL in which neither scheme occurs is
    shown as it is. *)
Theorem hostname_shown_spec :
  (∀ h, ¬ occurs (lit "http://") h →
        hostname_shown (lit "https://" ++ h) = h)
  ∧ (∀ h, ¬ occurs (lit "https://") h → ¬ occurs (lit "http://") h →
          hostname_shown (lit "http://" ++ h) = h)
  ∧ (∀ s, ¬ occurs (lit "https://") s → ¬ occurs (lit "http://") s →
          hostname_shown s = s).
Proof.
  unfold hostname_shown. split; [|split].
  - intros h Hh. rewrite replace_first_prefix. by apply replace_first_absent.
  - intros h Hs Hh.
    rewrite (replace_first_absent (lit "https://")).
    + apply replace_first_prefix.
    + intros H. by apply Hs, https_after_http.
  - intros s Hs Hh. rewrite (replace_first_absent (lit "https://") s Hs).
    by apply replace_first_absent.
Qed.

End HostnameShown.

Lemma hostname_shown_spec_witness :
  Display.hostname_shown (lit "https://viscon.monomorphic.party")
  = lit "viscon.monomorphic.party".
Proof.
  apply (proj1 hostname_shown_spec (lit "viscon.monomorphic.party")).
  intros H. apply replace_first_occurs in H. vm_compute in H. discriminate H.
Defined.

(** ** Loading the profile, then linking *)

Section LoadThenLink.

Context {platform : Platform}.
Import App Loading.

(** X8. Once [fetchAnimal] has stored the profile served by the own
    backend, an attempt to link the address that serves the same
    profile is refused as a self-link, after the profile request and
    before any add request. *)
Theorem self_link_after_load world p status d i status' d' :
  world (GET (lit "/api/me")) = Responds status (Some d) →
  ok status = true →
  get_prop d (lit "id") = inr (VStr i) →
  world (GET (friendMeUrl (friendUrl (app p)))) = Responds status' (Some d') →
  ok status' = true →
  get_prop d' (lit "id") = inr (VStr i) →
  let p' := fst (fetchAnimal world p) in
  animal (app p') = d
  ∧ error p' = None
  ∧ loading p' = false
  ∧ addFriend world (app p')
    = (failed (app p') (Error (lit "You can't add yourself as a friend!")),
       [Fetch (GET (friendMeUrl (friendUrl (app p))))]).
Proof.
  intros Hw Hok Hd Hw' Hok' Hd'.
  assert (fst (fetchAnimal world p)
          = {| app := setAnimal d (app p); loading := false; error := None |})
    as ->.
  { unfold fetchAnimal.
    cbv [fetchAnimal_try mbind Async_bind bind fetch perform json throw ret
         fst snd].
    by rewrite Hw, Hok. }
  simpl. repeat split.
  by apply (addFriend_rejects_self world (setAnimal d (app p)) status' d' i).
Qed.

End LoadThenLink.

Lemma self_link_after_load_witness :
  let p' := fst (Loading.fetchAnimal Cases.own_instance
                   (Cases.blank_page "https://me.example.com/")) in
  App.friendError
    (fst (@App.addFriend Reference.platform Cases.own_instance (Loading.app p')))
  = Some (Error (lit "You can't add yourself as a friend!")).
Proof.
  intros p'.
  destruct (@self_link_after_load Reference.platform Cases.own_instance
              (Cases.blank_page "https://me.example.com/") 200 Scenario.me
              (lit "self-123") 200 Scenario.me
              eq_refl eq_refl eq_refl eq_refl eq_refl eq_refl)
    as (_ & _ & _ & H).
  subst p'. by rewrite H.
Defined.

(** ** The status map built from an answer *)

Section StatusMap.

Context {platform : Platform}.
Import Monitoring StatusKey.






End StatusMap.

(** ** More on the Monitoring component *)

Section MonitoringMore.

Context {platform : Platform}.
Import Monitoring StatusKey.
Implicit Types (s : Session) (ev : Event) (evs : list Event).

(** A render sends at most one request, for a non-empty list, and
    forgets none. *)
Lemma commit_in_flight s s' :
  in_flight (commit s s') = in_flight s'
  ∨ (in_flight (commit s s')
     = in_flight s' ++ [{| cycle_id := next_cycle s';
                           instance_urls := instances s' |}]
     ∧ instances s' ≠ []).
Proof.
  unfold commit. case_decide; [by left|].
  destruct (run_cleanup_frame s') as (Hl & _ & _ & _ & _ & _ & Hfl & Hnc).
  rewrite <- Hl, <- Hfl, <- Hnc. generalize (run_cleanup s'). intros r.
  unfold effect_body. destruct (instances r) as [|c l] eqn:E; [by left|].
  by right.
Qed.

Lemma has_cycle_app id s (fl : list Cycle) c :
  find (λ c, bool_decide (cycle_id c = id)) (in_flight s) = Some c →
  find (λ c, bool_decide (cycle_id c = id)) (in_flight s ++ fl) = Some c.
Proof.
  induction (in_flight s) as [|x l IH]; [done|]. simpl.
  by destruct (bool_decide _).
Qed.

(** X10. When a request settles with a success status and a well-formed
    array, the status map is replaced as a whole by the object built
    from the answer, whatever it held and whatever the list now is; the
    time of the check is stored and [isChecking] is cleared even if
    other requests are still in flight. *)
Theorem settled_cycle_replaces id status data now s c m :
  mounted s = true →
  has_cycle id s = Some c →
  ok status = true →
  build_statusMap data = inr m →
  let s' := step (Settled id (Responds status (Some data)) now) s in
  healthStatuses s' = m
  ∧ lastChecked s' = Some now
  ∧ isChecking s' = false
  ∧ instances s' = instances s
  ∧ intervals s' = intervals s
  ∧ in_flight s' = filter (λ c, cycle_id c ≠ id) (in_flight s).
Proof.
  intros Hm Hc Hok Hb. unfold step. simpl. rewrite Hc, Hm.
  unfold checkHealth_settled. rewrite Hok, Hb. simpl.
  by rewrite commit_same.
Qed.

(** X11. A URL removed while a request is in flight gets its status
    back when that request settles: the answer replaces the whole map,
    and the answer was computed for the list as it was. *)
Theorem removed_url_status_returns id status data now s c m url st :
  mounted s = true →
  has_cycle id s = Some c →
  ok status = true →
  build_statusMap data = inr m →
  m !! url = Some st →
  let s' := step (Settled id (Responds status (Some data)) now)
              (step (Remove url) s) in
  (url ∉ instances s')
  ∧ healthStatuses (step (Remove url) s) !! url = None
  ∧ healthStatuses s' !! url = Some st.
Proof.
  intros Hm Hc Hok Hb Hst.
  destruct (removeInstance_frame url s (step (Remove url) s)
              (or_intror (conj Hm eq_refl))) as (Hout & _ & Hgone & _).
  assert (mounted (step (Remove url) s) = true) as Hm'.
  { unfold step. simpl. rewrite Hm.
    by destruct (commit_frame s (removeInstance url s)) as (_ & _ & _ & _ & ->). }
  assert (has_cycle id (step (Remove url) s) = Some c) as Hc'.
  { unfold has_cycle, step. simpl. rewrite Hm.
    destruct (commit_in_flight s (removeInstance url s)) as [-> | [-> _]];
      [done|]. by apply has_cycle_app. }
  destruct (settled_cycle_replaces id status data now _ c m Hm' Hc' Hok Hb)
    as (Hh & _ & _ & Hi & _).
  simpl. rewrite Hh, Hi. done.
Qed.

(** X12. A submit that adds nothing. With blank input nothing happens
    at all. With a URL that is already monitored the only effect is the
    alert: the list, the typed text, the requests in flight and the
    interval stay as they are. *)
Theorem submit_rejected s :
  (trim (instanceInput s) = [] → step Submit s = s)
  ∧ (mounted s = true → trim (instanceInput s) ≠ [] →
     trim (instanceInput s) ∈ instances s →
     step Submit s = alert s).
Proof.
  unfold step. simpl. split.
  - intros Ht. destruct (mounted s); [|by rewrite commit_same].
    unfold addInstance. rewrite Ht. simpl. by rewrite commit_same.
  - intros Hm Hne Hin. rewrite Hm. unfold addInstance.
    destruct (trim (instanceInput s)) as [|x t] eqn:Ht; [done|]. simpl.
    rewrite bool_decide_true by done. by rewrite commit_same.
Qed.

Lemma defaultInstances_trimmed :
  Forall (λ u, u ≠ [] ∧ trim u = u) defaultInstances.
Proof.
  apply (bool_decide_unpack _). by vm_compute.
Qed.

(** X13. No blank and no padded URL is ever monitored: every element of
    the list is non-empty and is its own trimmed form. *)
Theorem instances_trimmed evs u :
  u ∈ instances (run evs) → u ≠ [] ∧ trim u = u.
Proof.
  revert u. apply (run_ind (λ s, ∀ u, u ∈ instances s → u ≠ [] ∧ trim u = u)).
  - intros u Hu. pose proof defaultInstances_trimmed as H.
    rewrite Forall_forall in H. by apply H.
  - intros ev s IH u. rewrite step_instances.
    destruct ev as [value| |url|id|id o now|]; try apply IH.
    + destruct (mounted s); [|apply IH]. rewrite addInstance_instances.
      destruct (is_empty _) eqn:He; [apply IH|].
      case_bool_decide; [apply IH|].
      intros [Hu|Hu%list_elem_of_singleton]%elem_of_app; [by apply IH|].
      subst u. split; [|apply trim_idemp].
      by destruct (trim (instanceInput s)).
    + destruct (mounted s); [|apply IH].
      intros [_ Hu]%list_elem_of_filter. by apply IH.
Qed.

(** X14. The duplicate test ignores white space typed around the URL:
    a monitored URL typed again with padding is refused with the
    alert. *)
Theorem padded_duplicate_rejected evs l u r :
  mounted (run evs) = true →
  u ∈ instances (run evs) →
  instanceInput (run evs) = l ++ u ++ r →
  Forall (λ c, is_whitespace c = true) l →
  Forall (λ c, is_whitespace c = true) r →
  step Submit (run evs) = alert (run evs).
Proof.
  intros Hm Hu Hin Hl Hr.
  destruct (instances_trimmed evs u Hu) as [Hne Ht].
  assert (trim (instanceInput (run evs)) = u) as Htrim.
  { by rewrite Hin, trim_padded. }
  apply (proj2 (submit_rejected (run evs))); by rewrite ?Htrim.
Qed.

(** X15. Removing a URL restarts polling at once: when URLs remain, a
    request for exactly the remaining list is sent in the same turn and
    the interval is replaced by one for that list; when none remains,
    nothing is sent and no interval is left. *)
Theorem remove_probes_rest evs url :
  let s := run evs in
  let rest := filter (λ instance, instance ≠ url) (instances s) in
  mounted s = true →
  instances (step (Remove url) s) = rest
  ∧ match rest with
    | [] => in_flight (step (Remove url) s) = in_flight s
            ∧ intervals (step (Remove url) s) = []
    | _ :: _ =>
        in_flight (step (Remove url) s)
        = in_flight s ++ [{| cycle_id := next_cycle s; instance_urls := rest |}]
        ∧ ∃ id, intervals (step (Remove url) s)
                = [{| interval_id := id; period_ms := 5000;
                      closure_instances := rest |}]
    end.
Proof.
  intros s rest Hm. subst rest.
  pose proof (effect_invariant_one_interval s (reachable_invariant evs))
    as Hone.
  unfold step. simpl. rewrite Hm. rewrite commit_rerun by done.
  destruct (effect_rerun (removeInstance url s))
    as (Hinv & Hl & _ & _ & _ & Hm' & Hfl); [done | exact Hone |].
  simpl in Hl, Hfl. rewrite Hl, Hfl. split; [done|].
  unfold effect_invariant in Hinv. rewrite Hm', Hl in Hinv.
  destruct (filter _ (instances s)) as [|x rest]; [by destruct Hinv|].
  destruct Hinv as (id & Hi & _). eauto.
Qed.

Lemma reachable_NoDup evs : NoDup (instances (run evs)).
Proof.
  apply (run_ind (λ s, NoDup (instances s)));
    [apply defaultInstances_NoDup | apply step_NoDup].
Qed.

(** Where the requests in flight after a callback come from. *)
Lemma handle_in_flight evs ev c :
  c ∈ in_flight (handle ev (run evs)) →
  c ∈ in_flight (run evs)
  ∨ (instance_urls c = instances (handle ev (run evs))
     ∧ instances (handle ev (run evs)) ≠ []).
Proof.
  destruct ev as [value| |url|id|id o now|]; simpl.
  - destruct (mounted (run evs)); by left.
  - destruct (mounted (run evs)); [|by left]. unfold addInstance.
    destruct (is_empty _); [by left|]. case_bool_decide; by left.
  - destruct (mounted (run evs)); by left.
  - destruct (has_interval id (run evs)) as [iv|] eqn:Hiv; [|by left].
    destruct (live_interval evs id iv Hiv) as (_ & Hne & _ & ->). simpl.
    destruct (instances (run evs)) as [|x l] eqn:Hl; [done|].
    rewrite checkHealth_sends.
    intros [Hc|Hc%list_elem_of_singleton]%elem_of_app; [by left|].
    right. subst c. simpl. by rewrite Hl.
  - destruct (has_cycle id (run evs)); [|by left].
    assert (c ∈ in_flight (settle_cycle id (run evs)) → c ∈ in_flight (run evs))
      as Hsub by (by intros [_ ?]%list_elem_of_filter).
    destruct (mounted (run evs)); [|by left; apply Hsub].
    destruct (checkHealth_settled_frame o now (settle_cycle id (run evs)))
      as (_ & _ & _ & _ & _ & _ & ->).
    left. by apply Hsub.
  - destruct (mounted (run evs)); [|by left]. unfold unmount. simpl.
    destruct (run_cleanup_frame (run evs)) as (_ & _ & _ & _ & _ & _ & -> & _).
    by left.
Qed.

(** X16. Every health-check request carries a non-empty list of URLs
    without duplicates: it is the monitored list as it was when the
    request was sent. *)
Theorem in_flight_bodies evs c :
  c ∈ in_flight (run evs) →
  instance_urls c ≠ [] ∧ NoDup (instance_urls c).
Proof.
  revert c. induction evs as [|ev evs IH] using rev_ind; intros c.
  - intros Hc%list_elem_of_singleton. subst c. split; [done|].
    apply defaultInstances_NoDup.
  - rewrite run_snoc. pose proof (reachable_NoDup (evs ++ [ev])) as Hnd.
    rewrite run_snoc in Hnd. unfold step in *.
    destruct (commit_frame (run evs) (handle ev (run evs))) as (Hl & _).
    rewrite Hl in Hnd.
    assert (c ∈ in_flight (handle ev (run evs)) →
            instance_urls c ≠ [] ∧ NoDup (instance_urls c)) as Hh.
    { intros [Hc|[-> Hne]]%handle_in_flight; [by apply IH|done]. }
    destruct (commit_in_flight (run evs) (handle ev (run evs)))
      as [-> | [-> Hne]]; [done|].
    intros [Hc|Hc%list_elem_of_singleton]%elem_of_app; [by apply Hh|].
    by subst c.
Qed.

Lemma unmounted_step s ev :
  mounted s = false → intervals s = [] →
  instances (step ev s) = instances s
  ∧ instanceInput (step ev s) = instanceInput s
  ∧ healthStatuses (step ev s) = healthStatuses s
  ∧ isChecking (step ev s) = isChecking s
  ∧ lastChecked (step ev s) = lastChecked s
  ∧ mounted (step ev s) = false
  ∧ intervals (step ev s) = []
  ∧ next_cycle (step ev s) = next_cycle s
  ∧ alerts (step ev s) = alerts s.
Proof.
  intros Hm Hi. unfold step.
  destruct ev as [value| |url|id|id o now|]; simpl; rewrite ?Hm;
    try (by rewrite commit_same).
  - unfold has_interval. rewrite Hi. simpl. by rewrite commit_same.
  - destruct (has_cycle id s); by rewrite commit_same.
Qed.

(** X17. After the unmount nothing moves: whatever happens next
    (answers arriving, stale timer or form events), the five state cells
    keep the values they had, no interval exists, and no request is
    sent. *)
Theorem after_unmount evs rest :
  let s := run (evs ++ [Unmount]) in
  let s' := run (evs ++ Unmount :: rest) in
  instances s' = instances s
  ∧ instanceInput s' = instanceInput s
  ∧ healthStatuses s' = healthStatuses s
  ∧ isChecking s' = isChecking s
  ∧ lastChecked s' = lastChecked s
  ∧ mounted s' = false
  ∧ intervals s' = []
  ∧ next_cycle s' = next_cycle s.
Proof.
  simpl. induction rest as [|ev rest IH] using rev_ind.
  - assert (mounted (run (evs ++ [Unmount])) = false) as Hm.
    { rewrite run_snoc. unfold step. simpl.
      destruct (mounted (run evs)) eqn:E; [|by rewrite commit_same].
      rewrite commit_same; [done|]. unfold unmount. simpl.
      by destruct (run_cleanup_frame (run evs)) as (_ & _ & _ & _ & -> & _). }
    repeat split; try done.
    pose proof (reachable_invariant (evs ++ [Unmount])) as Hinv.
    unfold effect_invariant in Hinv. rewrite Hm in Hinv. by destruct Hinv.
  - replace (evs ++ Unmount :: rest ++ [ev])
      with ((evs ++ Unmount :: rest) ++ [ev]) by by rewrite <- app_assoc.
    rewrite run_snoc.
    destruct IH as (H1 & H2 & H3 & H4 & H5 & Hm & Hi & Hn).
    destruct (unmounted_step (run (evs ++ Unmount :: rest)) ev Hm Hi)
      as (-> & -> & -> & -> & -> & -> & -> & -> & _).
    done.
Qed.

End MonitoringMore.


Lemma settled_cycle_replaces_witness :
  let s' := @Monitoring.run Reference.platform [Scenario.first_answer] in
  Monitoring.healthStatuses s' !! lit "https://dj-viscon-workshop-0.vsos.ethz.ch"
  = Some (Scenario.status "https://dj-viscon-workshop-0.vsos.ethz.ch" false)
  ∧ Monitoring.lastChecked s' = Some 1700000000000
  ∧ Monitoring.isChecking s' = false.
Proof.
  edestruct (@settled_cycle_replaces Reference.platform 0 200
               (VArr [Scenario.status "https://viscon.monomorphic.party" true;
                      Scenario.status "https://dj-viscon-workshop-0.vsos.ethz.ch" false])
               1700000000000 (@Monitoring.run Reference.platform []))
    as (Hh & Hl & Hc & _); [reflexivity..|].
  change (@Monitoring.run Reference.platform [Scenario.first_answer])
    with (@Monitoring.step Reference.platform Scenario.first_answer
            (@Monitoring.run Reference.platform [])).
  unfold Scenario.first_answer. cbv zeta. rewrite Hh, Hl, Hc.
  by repeat split.
Defined.

Lemma removed_url_status_returns_witness :
  let url := lit "https://viscon.monomorphic.party" in
  let s' := @Monitoring.run Reference.platform
              [Monitoring.Remove url; Scenario.first_answer] in
  (url ∉ Monitoring.instances s')
  ∧ Monitoring.healthStatuses s' !! url
    = Some (Scenario.status "https://viscon.monomorphic.party" true).
Proof.
  intros url.
  edestruct (@removed_url_status_returns Reference.platform 0 200
               (VArr [Scenario.status "https://viscon.monomorphic.party" true;
                      Scenario.status "https://dj-viscon-workshop-0.vsos.ethz.ch" false])
               1700000000000 (@Monitoring.run Reference.platform []))
    with (url := url)
         (st := Scenario.status "https://viscon.monomorphic.party" true)
    as (Hout & _ & Hback); [reflexivity.. | by vm_compute |].
  split; [exact Hout | exact Hback].
Defined.

Lemma submit_rejected_witness :
  @Monitoring.step Reference.platform Monitoring.Submit
    (@Monitoring.run Reference.platform [Monitoring.Change (lit "   ")])
  = @Monitoring.run Reference.platform [Monitoring.Change (lit "   ")].
Proof.
  apply (proj1 (@submit_rejected Reference.platform _)). reflexivity.
Defined.

Lemma instances_trimmed_witness :
  lit "https://new.example" ≠ []
  ∧ trim (lit "https://new.example") = lit "https://new.example".
Proof.
  apply (@instances_trimmed Reference.platform
           [Monitoring.Change (lit "  https://new.example "); Monitoring.Submit]).
  apply (bool_decide_unpack _). by vm_compute.
Defined.

Lemma padded_duplicate_rejected_witness :
  let s := @Monitoring.run Reference.platform
             [Monitoring.Change (lit " https://viscon.monomorphic.party  ")] in
  @Monitoring.step Reference.platform Monitoring.Submit s = Monitoring.alert s.
Proof.
  apply (@padded_duplicate_rejected Reference.platform
           [Monitoring.Change (lit " https://viscon.monomorphic.party  ")]
           (lit " ") (lit "https://viscon.monomorphic.party") (lit "  "));
    [reflexivity | apply (bool_decide_unpack _); by vm_compute | reflexivity
    | by repeat constructor | by repeat constructor].
Defined.

Lemma remove_probes_rest_witness :
  Monitoring.in_flight
    (@Monitoring.step Reference.platform
       (Monitoring.Remove (lit "https://viscon.monomorphic.party"))
       (@Monitoring.run Reference.platform []))
  = [ {| Monitoring.cycle_id := 0;
         Monitoring.instance_urls := Monitoring.defaultInstances |};
      {| Monitoring.cycle_id := 1;
         Monitoring.instance_urls := tail Monitoring.defaultInstances |} ].
Proof.
  destruct (@remove_probes_rest Reference.platform []
              (lit "https://viscon.monomorphic.party") eq_refl) as [_ H].
  exact (proj1 H).
Defined.

Lemma in_flight_bodies_witness :
  NoDup Monitoring.defaultInstances.
Proof.
  apply (@in_flight_bodies Reference.platform [Monitoring.Tick 0]
           {| Monitoring.cycle_id := 1;
              Monitoring.instance_urls := Monitoring.defaultInstances |}).
  apply list_elem_of_In. right. left. reflexivity.
Defined.
